(** * User-account models: validation and normalisation

    A shallow embedding of [src/models.py]: the pydantic models [BaseUser],
    [User] and [AdminUser], the name normaliser, the password-strength
    validator and the permission check, together with the parts of the
    Python [str] type and of pydantic's field pipeline that they run on.

    Python strings are sequences of Unicode code points and are modelled as
    lists of [Z].  The Unicode tables consulted by [str.isdigit], [str.lower]
    and [str.capitalize], the e-mail validator behind [EmailStr] and
    pydantic's lax string-to-integer conversion are not part of the
    repository: they are taken as parameters (classes [UnicodeData] and
    [Validators]), so that every general theorem holds whatever these tables
    contain, and they are instantiated on a documented fragment for the
    concrete examples. *)

From Stdlib Require Import ZArith List Bool Lia String Ascii.
Import ListNotations.
Local Open Scope Z_scope.

Set Implicit Arguments.

(** ** Python strings *)

Definition pystr := list Z.

(** An ASCII literal as a Python string. *)
Definition str (s : string) : pystr :=
  map (fun a => Z.of_nat (nat_of_ascii a)) (list_ascii_of_string s).

Definition pystr_eqb (a b : pystr) : bool :=
  if list_eq_dec Z.eq_dec a b then true else false.

Fixpoint dropwhile (p : Z -> bool) (s : pystr) : pystr :=
  match s with
  | [] => []
  | c :: r => if p c then dropwhile p r else s
  end.

(** Removal of the leading and trailing characters that satisfy [p]. *)
Definition strip_with (p : Z -> bool) (s : pystr) : pystr :=
  rev (dropwhile p (rev (dropwhile p s))).

Definition in_ranges (rs : list (Z * Z)) (c : Z) : bool :=
  existsb (fun r => (fst r <=? c) && (c <=? snd r)) rs.

(** [Py_UNICODE_ISSPACE]: the characters removed by [str.strip()]. *)
Definition py_space_ranges : list (Z * Z) :=
  [ (0x09, 0x0D); (0x1C, 0x20); (0x85, 0x85); (0xA0, 0xA0);
    (0x1680, 0x1680); (0x2000, 0x200A); (0x2028, 0x2029);
    (0x202F, 0x202F); (0x205F, 0x205F); (0x3000, 0x3000) ].

Definition py_isspace : Z -> bool := in_ranges py_space_ranges.

(** The Unicode [White_Space] property: the characters removed by
    pydantic's [str_strip_whitespace] (pydantic-core trims with Rust's
    [str::trim]).  It differs from Python's set on U+001C..U+001F. *)
Definition white_space_ranges : list (Z * Z) :=
  [ (0x09, 0x0D); (0x20, 0x20); (0x85, 0x85); (0xA0, 0xA0);
    (0x1680, 0x1680); (0x2000, 0x200A); (0x2028, 0x2029);
    (0x202F, 0x202F); (0x205F, 0x205F); (0x3000, 0x3000) ].

Definition is_white_space : Z -> bool := in_ranges white_space_ranges.

(** [str.strip()] *)
Definition strip : pystr -> pystr := strip_with py_isspace.

(** Rust's [str::trim] *)
Definition trim : pystr -> pystr := strip_with is_white_space.

(** ** The Unicode character database, as CPython consults it *)

Class UnicodeData := {
  isdigit : Z -> bool;            (* Py_UNICODE_ISDIGIT *)
  tolower_full : Z -> pystr;      (* _PyUnicode_ToLowerFull *)
  totitle_full : Z -> pystr;      (* _PyUnicode_ToTitleFull *)
  is_cased : Z -> bool;           (* _PyUnicode_IsCased *)
  is_case_ignorable : Z -> bool   (* _PyUnicode_IsCaseIgnorable *)
}.

Definition SIGMA : Z := 0x3A3.        (* GREEK CAPITAL LETTER SIGMA *)
Definition final_sigma : Z := 0x3C2.  (* GREEK SMALL LETTER FINAL SIGMA *)
Definition small_sigma : Z := 0x3C3.  (* GREEK SMALL LETTER SIGMA *)

Section Casing.
Context {U : UnicodeData}.

(** The first character that is not case-ignorable, if any. *)
Fixpoint skip_ignorable (s : pystr) : option Z :=
  match s with
  | [] => None
  | c :: r => if is_case_ignorable c then skip_ignorable r else Some c
  end.

Definition cased_next (s : pystr) : bool :=
  match skip_ignorable s with
  | Some c => is_cased c
  | None => false
  end.

(** [handle_capital_sigma]: a capital sigma is lowered to the final form
    when a cased letter precedes it and none follows (case-ignorable
    characters skipped on both sides).  [before] holds the characters to
    the left of the sigma, nearest first. *)
Definition handle_capital_sigma (before after : pystr) : Z :=
  if cased_next before && negb (cased_next after)
  then final_sigma else small_sigma.

Definition lower_ucs4 (before : pystr) (c : Z) (after : pystr) : pystr :=
  if c =? SIGMA then [handle_capital_sigma before after]
  else tolower_full c.

Fixpoint lower_from (before s : pystr) : pystr :=
  match s with
  | [] => []
  | c :: r => lower_ucs4 before c r ++ lower_from (c :: before) r
  end.

(** [str.lower()] *)
Definition lower (s : pystr) : pystr := lower_from [] s.

(** [str.capitalize()]: the first character in title case, the rest in
    lower case. *)
Definition capitalize (s : pystr) : pystr :=
  match s with
  | [] => []
  | c :: r => totitle_full c ++ lower_from [c] r
  end.

End Casing.

(** ** Python values and exceptions *)

Inductive pyval :=
| VStr (s : pystr)
| VInt (n : Z)
| VBool (b : bool)
| VNone.

(** What a validator function raises. *)
Inductive raised :=
| RTypeError (msg : string)
| RValueError (msg : string).

(** [isinstance(v, str)] *)
Definition is_str (v : pyval) : bool :=
  match v with VStr _ => true | _ => false end.

(** ** src/models.py *)

Definition SPECIALS : pystr := str "!@#$%^&*".

Definition in_chars (ch : Z) (set : pystr) : bool := existsb (Z.eqb ch) set.

Section Models.
Context {U : UnicodeData}.

(** [BaseUser.normalize_name] *)
Definition normalize_name (v : pyval) : pystr + raised :=
  match v with
  | VStr v =>
      let s := strip v in
      match s with
      | [] => inr (RValueError "Name must not be empty")
      | _ => inl (capitalize (lower s))
      end
  | _ => inr (RTypeError "Name must be a string")
  end.

(** [User.validate_password_strength].  The last message ends, in the
    source, with the characters of [SPECIALS] in the set's iteration
    order; the model keeps the fixed part. *)
Definition validate_password_strength (v : pyval) : pystr + raised :=
  match v with
  | VStr v =>
      if (Z.of_nat (List.length v) <? 8) then
        inr (RValueError "Password must be at least 8 characters")
      else if negb (existsb isdigit v) then
        inr (RValueError "Password must contain at least one digit")
      else if negb (existsb (fun ch => in_chars ch SPECIALS) v) then
        inr (RValueError
               "Password must contain at least one special char from ")
      else inl v
  | _ => inr (RTypeError "Password must be a string")
  end.

End Models.

(** ** The pydantic field pipeline *)

(** The two validators the models delegate to and the repository does not
    contain. *)
Class Validators := {
  (* the [email-validator] package behind [EmailStr]: the address it
     returns, or [None] when it rejects the input *)
  validate_email : pystr -> option pystr;
  (* pydantic-core's conversion of a string to an integer in lax mode *)
  str_as_int : pystr -> option Z
}.

Inductive field := email | first_name | last_name | password | age | role.

Definition field_eqb (f g : field) : bool :=
  match f, g with
  | email, email | first_name, first_name | last_name, last_name
  | password, password | age, age | role, role => true
  | _, _ => false
  end.

(** The kinds of line error a [ValidationError] lists. *)
Inductive error_type :=
| missing
| string_type
| string_too_short
| int_type
| int_parsing
| greater_than_equal
| literal_error
| email_error
| no_such_attribute
| value_error (msg : string).

Inductive exn :=
| TypeError (msg : string)
| ValidationError (errors : list (field * error_type))
| ValueError (msg : string)
| AttributeError (name : field).

(** Result of validating one field: the validated value, a line error for
    the [ValidationError] being assembled, or an exception that pydantic
    does not catch.  A [ValueError] raised by a [field_validator] becomes a
    line error; a [TypeError] propagates to the caller. *)
Inductive outcome (A : Type) :=
| Valid (a : A)
| Invalid (e : error_type)
| Propagate (msg : string).

Arguments Valid {A} a.
Arguments Invalid {A} e.
Arguments Propagate {A} msg.

Definition obind {A B} (o : outcome A) (k : A -> outcome B) : outcome B :=
  match o with
  | Valid a => k a
  | Invalid e => Invalid e
  | Propagate m => Propagate m
  end.

Notation "x <- o ;; k" := (obind o (fun x => k))
  (at level 61, o at next level, right associativity).

Definition call_validator {A} (r : A + raised) : outcome A :=
  match r with
  | inl a => Valid a
  | inr (RValueError m) => Invalid (value_error m)
  | inr (RTypeError m) => Propagate m
  end.

(** [str] schema under [str_strip_whitespace=True]: only strings pass, the
    value is trimmed, then [min_length] is compared with the number of
    characters. *)
Definition str_schema (min_length : option Z) (v : pyval) : outcome pystr :=
  match v with
  | VStr s =>
      let s := trim s in
      match min_length with
      | Some n =>
          if Z.of_nat (List.length s) <? n then Invalid string_too_short
          else Valid s
      | None => Valid s
      end
  | _ => Invalid string_type
  end.

Definition literal_schema (expected : list pystr) (v : pyval)
  : outcome pystr :=
  match v with
  | VStr s =>
      if existsb (pystr_eqb s) expected then Valid s
      else Invalid literal_error
  | _ => Invalid literal_error
  end.

Section Pipeline.
Context {U : UnicodeData} {V : Validators}.

(** [int] in lax mode: integers pass, booleans are the integers 0 and 1,
    strings are converted. *)
Definition lax_int (v : pyval) : outcome Z :=
  match v with
  | VInt n => Valid n
  | VBool b => Valid (if b then 1 else 0)
  | VStr s =>
      match str_as_int s with
      | Some n => Valid n
      | None => Invalid int_parsing
      end
  | VNone => Invalid int_type
  end.

(** [int] schema with [Field(ge=...)] *)
Definition int_schema (ge : Z) (v : pyval) : outcome Z :=
  n <- lax_int v ;;
  if n <? ge then Invalid greater_than_equal else Valid n.

(** [EmailStr]: a trimmed string handed to the e-mail validator. *)
Definition email_schema (v : pyval) : outcome pystr :=
  s <- str_schema None v ;;
  match validate_email s with
  | Some e => Valid e
  | None => Invalid email_error
  end.

(** The validation of each field, as the class bodies declare it:
    - [email: EmailStr]
    - [first_name: str], [last_name: str], with [normalize_name] run
      before the [str] schema ([mode="before"])
    - [password: str = Field(min_length=8)], with
      [validate_password_strength] run after it
    - [age: int = Field(ge=18)]
    - [role: Literal["admin", "superadmin"]] *)
Definition validate_field (f : field) (v : pyval) : outcome pyval :=
  match f with
  | email =>
      e <- email_schema v ;; Valid (VStr e)
  | first_name | last_name =>
      n <- call_validator (normalize_name v) ;;
      s <- str_schema None (VStr n) ;;
      Valid (VStr s)
  | password =>
      s <- str_schema (Some 8) v ;;
      p <- call_validator (validate_password_strength (VStr s)) ;;
      Valid (VStr p)
  | age =>
      n <- int_schema 18 v ;; Valid (VInt n)
  | role =>
      r <- literal_schema [str "admin"; str "superadmin"] v ;;
      Valid (VStr r)
  end.

End Pipeline.

(** ** Models and their instances *)

Inductive model := BaseUser | User | AdminUser.

(** Fields in definition order, inherited ones first. *)
Definition model_fields (m : model) : list field :=
  match m with
  | BaseUser => [email; first_name; last_name]
  | User => [email; first_name; last_name; password; age]
  | AdminUser => [email; first_name; last_name; password; age; role]
  end.

Definition has_field (m : model) (f : field) : bool :=
  existsb (field_eqb f) (model_fields m).

(** An instance: its class and its [__dict__]. *)
Record instance := {
  cls : model;
  dict : field -> option pyval
}.

Definition update (d : field -> option pyval) (f : field) (v : pyval)
  : field -> option pyval :=
  fun g => if field_eqb g f then Some v else d g.

Definition empty_dict : field -> option pyval := fun _ => None.

Definition kwargs := field -> option pyval.

Section Construction.
Context {U : UnicodeData} {V : Validators}.

(** Validation of the fields in order.  Line errors are collected, one per
    failing field; an exception that is not a validation failure aborts at
    once. *)
Fixpoint validate_fields (fs : list field) (kw : kwargs)
    (d : field -> option pyval) (errors : list (field * error_type))
  : (field -> option pyval) + exn :=
  match fs with
  | [] =>
      match errors with
      | [] => inl d
      | _ => inr (ValidationError (rev errors))
      end
  | f :: fs =>
      match kw f with
      | None => validate_fields fs kw d ((f, missing) :: errors)
      | Some v =>
          match validate_field f v with
          | Valid v' => validate_fields fs kw (update d f v') errors
          | Invalid e => validate_fields fs kw d ((f, e) :: errors)
          | Propagate m => inr (TypeError m)
          end
      end
  end.

(** [Model(email=..., ...)]: keyword arguments that name no field of the model are
    ignored. *)
Definition init (m : model) (kw : kwargs) : instance + exn :=
  match validate_fields (model_fields m) kw empty_dict [] with
  | inl d => inl {| cls := m; dict := d |}
  | inr e => inr e
  end.

End Construction.

(** ** Methods: state and exceptions over [self] *)

Definition method (A : Type) := instance -> (A + exn) * instance.

Definition ret {A} (a : A) : method A := fun self => (inl a, self).

Definition raise {A} (e : exn) : method A := fun self => (inr e, self).

Definition mbind {A B} (m : method A) (k : A -> method B) : method B :=
  fun self =>
    match m self with
    | (inl a, self') => k a self'
    | (inr e, self') => (inr e, self')
    end.

Notation "x <~ m ;; k" := (mbind m (fun x => k))
  (at level 61, m at next level, right associativity).

Definition getattr (f : field) : method pyval :=
  fun self =>
    match dict self f with
    | Some v => (inl v, self)
    | None => (inr (AttributeError f), self)
    end.

Definition store (f : field) (v : pyval) : method unit :=
  fun self => (inl tt, {| cls := cls self; dict := update (dict self) f v |}).

Definition pyval_eqb (a b : pyval) : bool :=
  match a, b with
  | VStr s, VStr t => pystr_eqb s t
  | VInt n, VInt m => n =? m
  | VBool x, VBool y => Bool.eqb x y
  | VInt n, VBool y | VBool y, VInt n => n =? (if y then 1 else 0)
  | VNone, VNone => true
  | _, _ => false
  end.

Definition ADMIN_PERMISSIONS : list pystr :=
  [ str "read"; str "write"; str "delete"; str "view_reports";
    str "manage_users" ].

(** [AdminUser.has_permission] *)
Definition has_permission (permission : pystr) : method bool :=
  r <~ getattr role ;;
  if pyval_eqb r (VStr (str "superadmin")) then ret true
  else ret (existsb (pystr_eqb permission) ADMIN_PERMISSIONS).

Section Assignment.
Context {U : UnicodeData} {V : Validators}.

(** [self.f = v] under [validate_assignment=True]: the new value goes
    through the validation of its field, and [__dict__] is replaced only
    once that has succeeded.  A name that is no field of the class is
    refused by the same validation, with a [no_such_attribute] error. *)
Definition setattr (f : field) (v : pyval) : method unit :=
  fun self =>
    if negb (has_field (cls self) f) then
      raise (ValidationError [(f, no_such_attribute)]) self
    else
      match validate_field f v with
      | Valid v' => store f v' self
      | Invalid e => raise (ValidationError [(f, e)]) self
      | Propagate m => raise (TypeError m) self
      end.

End Assignment.

(** ** A fragment of the Unicode tables

    The tables of CPython's Unicode database restricted to Basic Latin,
    Latin-1 Supplement, the Greek capitals U+0391..U+03A9 and small letters
    U+03B1..U+03C9, Cyrillic U+0400..U+045F, and the code points U+0149,
    U+0178 and U+02BC.  Code points outside these ranges are left without
    digit value, case or case mapping; the examples stay inside them. *)

Fixpoint shift_lookup (t : list (Z * Z * Z)) (c : Z) : option Z :=
  match t with
  | [] => None
  | (lo, hi, d) :: t =>
      if (lo <=? c) && (c <=? hi) then Some d else shift_lookup t c
  end.

(** Upper-case ranges and the distance to their lower-case letters. *)
Definition lower_shifts : list (Z * Z * Z) :=
  [ (0x41, 0x5A, 32); (0xC0, 0xD6, 32); (0xD8, 0xDE, 32);
    (0x178, 0x178, -121); (0x391, 0x3A1, 32); (0x3A3, 0x3A9, 32);
    (0x400, 0x40F, 80); (0x410, 0x42F, 32) ].

(** Lower-case ranges and the distance to their title-case letters. *)
Definition title_shifts : list (Z * Z * Z) :=
  [ (0x61, 0x7A, -32); (0xB5, 0xB5, 743); (0xE0, 0xF6, -32);
    (0xF8, 0xFE, -32); (0xFF, 0xFF, 121); (0x3B1, 0x3C1, -32);
    (0x3C2, 0x3C2, -31); (0x3C3, 0x3C9, -32); (0x430, 0x44F, -32);
    (0x450, 0x45F, -80) ].

Definition fragment_tolower (c : Z) : pystr :=
  match shift_lookup lower_shifts c with
  | Some d => [c + d]
  | None => [c]
  end.

(** U+00DF (sharp s) and U+0149 (n preceded by apostrophe) have two-letter
    title-case forms. *)
Definition fragment_totitle (c : Z) : pystr :=
  if c =? 0xDF then [0x53; 0x73]
  else if c =? 0x149 then [0x2BC; 0x4E]
  else match shift_lookup title_shifts c with
       | Some d => [c + d]
       | None => [c]
       end.

Definition fragment_cased : list (Z * Z) :=
  [ (0x41, 0x5A); (0x61, 0x7A); (0xAA, 0xAA); (0xB5, 0xB5); (0xBA, 0xBA);
    (0xC0, 0xD6); (0xD8, 0xF6); (0xF8, 0xFF); (0x149, 0x149);
    (0x178, 0x178); (0x391, 0x3A1); (0x3A3, 0x3A9); (0x3B1, 0x3C9);
    (0x400, 0x45F) ].

Definition fragment_case_ignorable : list (Z * Z) :=
  [ (0x27, 0x27); (0x2E, 0x2E); (0x3A, 0x3A); (0x5E, 0x5E); (0x60, 0x60);
    (0xA8, 0xA8); (0xAD, 0xAD); (0xAF, 0xAF); (0xB4, 0xB4); (0xB7, 0xB8);
    (0x2BC, 0x2BC) ].

Definition fragment_digits : list (Z * Z) :=
  [ (0x30, 0x39); (0xB2, 0xB3); (0xB9, 0xB9) ].

Definition unicode_fragment : UnicodeData := {|
  isdigit := in_ranges fragment_digits;
  tolower_full := fragment_tolower;
  totitle_full := fragment_totitle;
  is_cased := in_ranges fragment_cased;
  is_case_ignorable := in_ranges fragment_case_ignorable
|}.

(** ** Stand-ins for the two external validators

    [plain_str_as_int] converts the plain numerals (an optional sign and
    ASCII digits, surrounded by optional white space), which every release
    of pydantic accepts.  [simple_validate_email] accepts the ASCII
    addresses [local@label.label...] and returns them with the domain in
    lower case, as [email-validator] does on such addresses. *)

Definition is_ascii_digit (c : Z) : bool := (0x30 <=? c) && (c <=? 0x39).

Fixpoint digits_value (acc : Z) (s : pystr) : option Z :=
  match s with
  | [] => Some acc
  | c :: r =>
      if is_ascii_digit c then digits_value (10 * acc + (c - 0x30)) r
      else None
  end.

Definition unsigned_value (s : pystr) : option Z :=
  match s with
  | [] => None
  | _ => digits_value 0 s
  end.

Definition plain_str_as_int (s : pystr) : option Z :=
  match trim s with
  | 0x2B :: r => unsigned_value r
  | 0x2D :: r => option_map Z.opp (unsigned_value r)
  | r => unsigned_value r
  end.

Fixpoint split_on (sep : Z) (s : pystr) : list pystr :=
  match s with
  | [] => [[]]
  | c :: r =>
      if c =? sep then [] :: split_on sep r
      else match split_on sep r with
           | [] => [[c]]
           | w :: ws => (c :: w) :: ws
           end
  end.

Definition is_ascii_alnum (c : Z) : bool :=
  is_ascii_digit c || ((0x41 <=? c) && (c <=? 0x5A))
  || ((0x61 <=? c) && (c <=? 0x7A)).

Definition nonempty (s : pystr) : bool :=
  match s with [] => false | _ => true end.

Definition label_ok (l : pystr) : bool :=
  nonempty l && forallb (fun c => is_ascii_alnum c || (c =? 0x2D)) l.

Definition local_ok (l : pystr) : bool :=
  nonempty l
  && forallb (fun c => is_ascii_alnum c || in_chars c (str "_+-")) l.

Definition ascii_lower (c : Z) : Z :=
  if (0x41 <=? c) && (c <=? 0x5A) then c + 32 else c.

Definition simple_validate_email (s : pystr) : option pystr :=
  match split_on 0x40 s with
  | [loc; dom] =>
      let labels := split_on 0x2E dom in
      if forallb local_ok (split_on 0x2E loc)
         && (2 <=? Z.of_nat (List.length labels))
         && forallb label_ok labels
      then Some (loc ++ [0x40] ++ map ascii_lower dom)
      else None
  | _ => None
  end.

Definition sample_validators : Validators := {|
  validate_email := simple_validate_email;
  str_as_int := plain_str_as_int
|}.

(** ** Laws of the case tables

    Facts of the Unicode case mappings that the theorems on names rely on.
    [CaseLaws]: a case mapping is never empty and never turns a character
    that is not white space into white space.  [CaseStable]: lower-casing
    produces no capital sigma and only characters that lower-casing leaves
    alone, and a title-case form has no capital sigma after its first
    character.  Both hold of the Unicode case mappings; they are proved
    for the fragment in [fragment_case_laws] and [fragment_case_stable]. *)

Class CaseLaws (U : UnicodeData) : Prop := {
  tolower_nonempty : forall c, tolower_full c <> [];
  totitle_nonempty : forall c, totitle_full c <> [];
  tolower_nonspace : forall c x,
    py_isspace c = false -> In x (tolower_full c) -> py_isspace x = false;
  totitle_nonspace : forall c x,
    py_isspace c = false -> In x (totitle_full c) -> py_isspace x = false
}.

Class CaseStable (U : UnicodeData) : Prop := {
  tolower_no_sigma : forall c, ~ In SIGMA (tolower_full c);
  tolower_fixed : forall c x, In x (tolower_full c) -> tolower_full x = [x];
  sigma_fixed : tolower_full small_sigma = [small_sigma]
                /\ tolower_full final_sigma = [final_sigma];
  totitle_tail_no_sigma : forall c, ~ In SIGMA (tl (totitle_full c))
}.

(** ** Predicates used in the statements *)

(** No leading and no trailing character satisfies [p]. *)
Definition trimmed (p : Z -> bool) (s : pystr) : Prop :=
  dropwhile p s = s /\ dropwhile p (rev s) = rev s.

Definition has_digit {U : UnicodeData} (s : pystr) : bool :=
  existsb isdigit s.

Definition has_special (s : pystr) : bool :=
  existsb (fun ch => in_chars ch SPECIALS) s.

(** [isinstance(v, int)]; [bool] is a subclass of [int]. *)
Definition is_int (v : pyval) : bool :=
  match v with VInt _ | VBool _ => true | _ => false end.

(** The outcome of the field [f] of a call with keyword arguments [kw]. *)
Definition field_result {U : UnicodeData} {V : Validators}
    (kw : kwargs) (f : field) : outcome pyval :=
  match kw f with
  | None => Invalid missing
  | Some v => validate_field f v
  end.

Definition field_valid {U : UnicodeData} {V : Validators}
    (kw : kwargs) (f : field) : Prop :=
  exists v, field_result kw f = Valid v.

Definition is_name (f : field) : Prop := f = first_name \/ f = last_name.

(** No name argument is of a wrong type, so [normalize_name] raises no
    [TypeError]. *)
Definition names_are_strings (kw : kwargs) : Prop :=
  forall f v, is_name f -> kw f = Some v -> is_str v = true.

(** What holds of the value stored in each field. *)
Definition field_invariant {U : UnicodeData} {V : Validators}
    (f : field) (stored : option pyval) : Prop :=
  match f with
  | email =>
      exists e s, stored = Some (VStr e) /\ validate_email s = Some e
  | first_name | last_name =>
      exists n, stored = Some (VStr n)
                /\ strip n <> []
                /\ exists v, normalize_name v = inl n
  | password =>
      exists p, stored = Some (VStr p)
                /\ 8 <= Z.of_nat (List.length p)
                /\ has_digit p = true
                /\ has_special p = true
  | age =>
      exists n, stored = Some (VInt n) /\ 18 <= n
  | role =>
      stored = Some (VStr (str "admin"))
      \/ stored = Some (VStr (str "superadmin"))
  end.

Definition valid_instance {U : UnicodeData} {V : Validators}
    (self : instance) : Prop :=
  forall f, In f (model_fields (cls self)) -> field_invariant f (dict self f).

(** Instances obtained by a construction followed by assignments. *)
Inductive reachable {U : UnicodeData} {V : Validators} : instance -> Prop :=
| reach_init m kw self :
    init m kw = inl self -> reachable self
| reach_setattr self f v r self' :
    reachable self -> setattr f v self = (r, self') -> reachable self'.

(** A non-empty string whose first character is not white space; the
    same of the last character. *)
Definition starts_clean (s : pystr) : Prop :=
  match s with
  | [] => False
  | c :: _ => py_isspace c = false
  end.

Definition ends_clean (s : pystr) : Prop := starts_clean (rev s).

Definition clean (s : pystr) : Prop := starts_clean s /\ ends_clean s.

(** The line errors of a call, in field order. *)
Definition line_errors {U : UnicodeData} {V : Validators}
    (kw : kwargs) (fs : list field) : list (field * error_type) :=
  flat_map (fun f => match field_result kw f with
                     | Invalid e => [(f, e)]
                     | _ => []
                     end) fs.

(** Every field of the model other than [f] is given a valid value. *)
Definition others_valid {U : UnicodeData} {V : Validators}
    (m : model) (kw : kwargs) (f : field) : Prop :=
  forall g, In g (model_fields m) -> g <> f -> field_valid kw g.

(** The line error of a password that breaks a rule: the rules are tried
    on the trimmed password, in the order length, digit, special
    character. *)
Definition password_error {U : UnicodeData} (p : pystr) : error_type :=
  let s := trim p in
  if Z.of_nat (List.length s) <? 8 then string_too_short
  else if negb (has_digit s) then
    value_error "Password must contain at least one digit"
  else value_error "Password must contain at least one special char from ".

(** Keyword arguments of the test-suite: a valid administrator. *)
Definition admin_kwargs : kwargs := fun f =>
  Some match f with
       | email => VStr (str "a@b.com")
       | first_name => VStr [0x418; 0x432; 0x430; 0x43D]
       | last_name => VStr [0x41F; 0x435; 0x442; 0x440; 0x43E; 0x432]
       | password => VStr (str "Abcdef1!")
       | age => VInt 33
       | role => VStr (str "admin")
       end.

(** [kw] with the argument [f] replaced by [v]. *)
Definition with_arg (kw : kwargs) (f : field) (v : pyval) : kwargs :=
  update kw f v.

(** The names of the test-suite: "ВаСЯ" and "Вася". *)
Definition VaSYa : pystr := [0x412; 0x430; 0x421; 0x42F].
Definition Vasya : pystr := [0x412; 0x430; 0x441; 0x44F].


(** The record built from [admin_kwargs] on the fragment. *)
Definition admin_record : instance :=
  match @init unicode_fragment sample_validators AdminUser admin_kwargs with
  | inl self => self
  | inr _ => {| cls := AdminUser; dict := empty_dict |}
  end.

(** A character that lower-casing leaves alone. *)
Definition lowered {U : UnicodeData} (x : Z) : Prop :=
  x <> SIGMA /\ tolower_full x = [x].

(** [str.isdecimal] on the fragment: its only decimal digits are the
    ASCII digits; U+00B2, U+00B3 and U+00B9 are digits for [str.isdigit]
    without being decimal digits. *)
Definition fragment_decimal : list (Z * Z) := [ (0x30, 0x39) ].

Definition has_decimal_digit (s : pystr) : bool :=
  existsb (in_ranges fragment_decimal) s.



(** * Properties *)

Unset Implicit Arguments.

(** ** Lists and stripping *)

Lemma dropwhile_fix_iff p s :
  dropwhile p s = s <-> match s with [] => True | c :: _ => p c = false end.
Proof.
  destruct s as [|c r]; simpl; [tauto|].
  destruct (p c) eqn:E; split; intro H; try reflexivity; try discriminate.
  exfalso. clear E.
  assert (L : forall t, (List.length (dropwhile p t) <= List.length t)%nat).
  { induction t as [|x t IH]; simpl; [lia|]. destruct (p x); simpl; lia. }
  specialize (L r). rewrite H in L. simpl in L. lia.
Qed.

Lemma dropwhile_idem p s : dropwhile p (dropwhile p s) = dropwhile p s.
Proof.
  induction s as [|c r IH]; simpl; [reflexivity|].
  destruct (p c) eqn:E; [exact IH|]. simpl. now rewrite E.
Qed.

Lemma dropwhile_suffix p s : exists pre, s = pre ++ dropwhile p s.
Proof.
  induction s as [|c r [pre IH]]; simpl.
  - now exists [].
  - destruct (p c).
    + exists (c :: pre). simpl. now f_equal.
    + now exists [].
Qed.

Lemma strip_with_decompose p s :
  exists pre post, s = pre ++ strip_with p s ++ post.
Proof.
  unfold strip_with.
  destruct (dropwhile_suffix p s) as [pre Hpre].
  destruct (dropwhile_suffix p (rev (dropwhile p s))) as [post Hpost].
  exists pre, (rev post).
  rewrite <- rev_app_distr, <- Hpost, rev_involutive. exact Hpre.
Qed.

Lemma strip_with_In p s c : In c (strip_with p s) -> In c s.
Proof.
  destruct (strip_with_decompose p s) as (pre & post & E). intro H.
  rewrite E. apply in_or_app. right. apply in_or_app. now left.
Qed.

Lemma strip_with_length p s :
  (List.length (strip_with p s) <= List.length s)%nat.
Proof.
  destruct (strip_with_decompose p s) as (pre & post & E).
  rewrite E at 2. rewrite !length_app. lia.
Qed.

Lemma strip_with_trimmed p s : trimmed p (strip_with p s).
Proof.
  unfold trimmed, strip_with. split.
  - destruct (dropwhile_suffix p (rev (dropwhile p s))) as [post Hpost].
    apply dropwhile_fix_iff.
    destruct (rev (dropwhile p (rev (dropwhile p s)))) as [|c t] eqn:E;
      [exact I|].
    assert (H0 : dropwhile p s = (c :: t) ++ rev post).
    { rewrite <- E, <- rev_app_distr, <- Hpost. now rewrite rev_involutive. }
    pose proof (dropwhile_idem p s) as Hi. rewrite H0 in Hi.
    apply dropwhile_fix_iff in Hi. exact Hi.
  - rewrite rev_involutive. apply dropwhile_idem.
Qed.

Lemma strip_trimmed p s : trimmed p s -> strip_with p s = s.
Proof.
  intros [H1 H2]. unfold strip_with. rewrite H1, H2. apply rev_involutive.
Qed.

Lemma trimmed_weaken (p q : Z -> bool) s :
  (forall c, q c = true -> p c = true) -> trimmed p s -> trimmed q s.
Proof.
  intros Hqp [H1 H2]. split; apply dropwhile_fix_iff.
  - apply dropwhile_fix_iff in H1. destruct s as [|c r]; [exact I|].
    destruct (q c) eqn:E; [|reflexivity]. apply Hqp in E. congruence.
  - apply dropwhile_fix_iff in H2. destruct (rev s) as [|c r]; [exact I|].
    destruct (q c) eqn:E; [|reflexivity]. apply Hqp in E. congruence.
Qed.

(** Case analysis on the comparisons of a goal, pruning the branches that
    contradict the bounds collected so far. *)
Ltac split_cmp :=
  repeat match goal with
    | |- context [Z.leb ?a ?b] =>
        destruct (Z.leb_spec a b); try lia; cbn [andb orb negb]
    | |- context [Z.eqb ?a ?b] =>
        destruct (Z.eqb_spec a b); try lia; cbn [andb orb negb]
    end.

Lemma white_space_is_py_space c :
  is_white_space c = true -> py_isspace c = true.
Proof.
  unfold is_white_space, py_isspace, in_ranges.
  cbv [white_space_ranges py_space_ranges existsb fst snd].
  split_cmp; intros; try discriminate; reflexivity.
Qed.

Lemma trimmed_py_trim s : trimmed py_isspace s -> trim s = s.
Proof.
  intro H. apply strip_trimmed.
  apply (trimmed_weaken py_isspace); [apply white_space_is_py_space|].
  exact H.
Qed.

(** ** Names keep clean ends through the case mappings *)

Lemma clean_trimmed s : clean s -> s <> [] /\ trimmed py_isspace s.
Proof.
  unfold clean, ends_clean, trimmed. intros [H1 H2]. split.
  - destruct s; [contradiction|discriminate].
  - split; apply dropwhile_fix_iff.
    + destruct s; [exact I|exact H1].
    + destruct (rev s); [exact I|exact H2].
Qed.

Lemma trimmed_clean s : s <> [] -> trimmed py_isspace s -> clean s.
Proof.
  unfold clean, ends_clean, trimmed. intros Hne [H1 H2].
  apply dropwhile_fix_iff in H1, H2. split.
  - destruct s; [congruence|exact H1].
  - destruct (rev s) eqn:E; [|exact H2].
    apply (f_equal (@rev Z)) in E. rewrite rev_involutive in E. now subst.
Qed.

Lemma strip_clean s : strip s <> [] -> clean (strip s).
Proof. intro H. apply trimmed_clean; [exact H|apply strip_with_trimmed]. Qed.

Lemma starts_clean_app x y : starts_clean x -> starts_clean (x ++ y).
Proof. destruct x; simpl; [contradiction|auto]. Qed.

Lemma ends_clean_app x y : ends_clean y -> ends_clean (x ++ y).
Proof.
  unfold ends_clean. rewrite rev_app_distr. apply starts_clean_app.
Qed.

Lemma ends_clean_tail c r : r <> [] -> ends_clean (c :: r) -> ends_clean r.
Proof.
  unfold ends_clean. simpl. intro Hne.
  destruct (rev r) eqn:E; [|auto].
  apply (f_equal (@rev Z)) in E. rewrite rev_involutive in E. now subst.
Qed.

Lemma nonspace_clean x :
  x <> [] -> (forall c, In c x -> py_isspace c = false) -> clean x.
Proof.
  intros Hne Hall. split.
  - destruct x; [congruence|]. apply Hall. now left.
  - unfold ends_clean. destruct (rev x) as [|c t] eqn:E.
    + apply (f_equal (@rev Z)) in E. rewrite rev_involutive in E. now subst.
    + apply Hall. apply in_rev. rewrite E. now left.
Qed.

Section CleanNames.
Context {U : UnicodeData} {L : CaseLaws U}.

Lemma lower_ucs4_clean before c after :
  py_isspace c = false -> clean (lower_ucs4 before c after).
Proof.
  intro Hc. unfold lower_ucs4. destruct (c =? SIGMA).
  - apply nonspace_clean; [discriminate|].
    intros x [<-|[]]. unfold handle_capital_sigma.
    destruct (_ && _); reflexivity.
  - apply nonspace_clean; [apply tolower_nonempty|].
    intros x Hx. eapply tolower_nonspace; eauto.
Qed.

Lemma lower_from_starts before s :
  starts_clean s -> starts_clean (lower_from before s).
Proof.
  destruct s as [|c r]; simpl; [contradiction|]. intro Hc.
  apply starts_clean_app. now apply lower_ucs4_clean.
Qed.

Lemma lower_from_ends s : forall before,
  ends_clean s -> ends_clean (lower_from before s).
Proof.
  induction s as [|c r IH]; intros before H; [contradiction|].
  simpl. destruct r as [|c' r'].
  - simpl. rewrite app_nil_r. apply lower_ucs4_clean. exact H.
  - apply ends_clean_app, IH.
    apply ends_clean_tail with (c := c); [discriminate|exact H].
Qed.

Lemma lower_clean s : clean s -> clean (lower s).
Proof.
  intros [H1 H2]. split; [now apply lower_from_starts|].
  now apply lower_from_ends.
Qed.

Lemma capitalize_clean s : clean s -> clean (capitalize s).
Proof.
  intros [H1 H2]. destruct s as [|c r]; [contradiction|]. simpl in H1.
  assert (Ht : clean (totitle_full c)).
  { apply nonspace_clean; [apply totitle_nonempty|].
    intros x Hx. eapply totitle_nonspace; eauto. }
  unfold capitalize. split.
  - apply starts_clean_app, Ht.
  - destruct r as [|c' r'].
    + simpl. rewrite app_nil_r. apply Ht.
    + apply ends_clean_app, lower_from_ends.
      apply ends_clean_tail with (c := c); [discriminate|exact H2].
Qed.

(** A normalised name is not empty and has neither leading nor trailing
    white space. *)
Lemma normalize_name_clean v n : normalize_name v = inl n -> clean n.
Proof.
  destruct v as [s| | |]; simpl; try discriminate.
  destruct (strip s) eqn:E; [discriminate|]. intro H. inversion H.
  apply capitalize_clean, lower_clean. rewrite <- E. apply strip_clean.
  rewrite E. discriminate.
Qed.

Lemma normalize_name_trim v n : normalize_name v = inl n -> trim n = n.
Proof.
  intro H. apply trimmed_py_trim.
  apply (clean_trimmed _ (normalize_name_clean _ _ H)).
Qed.

Lemma normalize_name_strip v n :
  normalize_name v = inl n -> strip n = n /\ n <> [].
Proof.
  intro H. destruct (clean_trimmed _ (normalize_name_clean _ _ H)) as [Hne Ht].
  split; [now apply strip_trimmed|exact Hne].
Qed.

End CleanNames.

(** ** The validation of each field *)

Lemma pystr_eqb_eq a b : pystr_eqb a b = true <-> a = b.
Proof.
  unfold pystr_eqb. destruct (list_eq_dec Z.eq_dec a b); split;
    congruence.
Qed.

Lemma pystr_eqb_refl a : pystr_eqb a a = true.
Proof. now apply pystr_eqb_eq. Qed.

Lemma field_eqb_eq f g : field_eqb f g = true <-> f = g.
Proof. destruct f, g; simpl; split; congruence. Qed.

Lemma update_same d f v : update d f v f = Some v.
Proof. unfold update. now destruct f. Qed.

Lemma update_other d f g v : g <> f -> update d f v g = d g.
Proof.
  unfold update. intro H. destruct (field_eqb g f) eqn:E; [|reflexivity].
  apply field_eqb_eq in E. contradiction.
Qed.

Section Fields.
Context {U : UnicodeData} {V : Validators}.

(** The password pipeline: trimming, [min_length], then the three checks
    of [validate_password_strength], of which the first can no longer
    fail. *)
Lemma validate_password p :
  validate_field password (VStr p) =
    let s := trim p in
    if Z.of_nat (List.length s) <? 8 then Invalid string_too_short
    else if negb (has_digit s) then
      Invalid (value_error "Password must contain at least one digit")
    else if negb (has_special s) then
      Invalid (value_error
                 "Password must contain at least one special char from ")
    else Valid (VStr s).
Proof.
  unfold validate_field, str_schema, validate_password_strength,
    has_digit, has_special. cbn zeta.
  destruct (Z.of_nat (List.length (trim p)) <? 8) eqn:E; [reflexivity|].
  cbn [obind]. rewrite E.
  destruct (existsb isdigit (trim p)); [|reflexivity].
  destruct (existsb _ (trim p)); reflexivity.
Qed.

Lemma validate_password_valid v s :
  validate_field password v = Valid s <->
  exists p, v = VStr p /\ s = VStr (trim p)
            /\ 8 <= Z.of_nat (List.length (trim p))
            /\ has_digit (trim p) = true
            /\ has_special (trim p) = true.
Proof.
  destruct v as [p| | |]; try (split; [discriminate|intros (p&H&_); discriminate]).
  rewrite validate_password. cbn zeta.
  destruct (Z.ltb_spec (Z.of_nat (List.length (trim p))) 8) as [Hl|Hl].
  { split; [discriminate|]. intros (q & Hq & _ & Hlen & _).
    inversion Hq; subst. lia. }
  destruct (has_digit (trim p)) eqn:Hd; cbn [negb].
  2:{ split; [discriminate|]. intros (q & Hq & _ & _ & Hd' & _).
      inversion Hq; subst. congruence. }
  destruct (has_special (trim p)) eqn:Hs; cbn [negb].
  2:{ split; [discriminate|]. intros (q & Hq & _ & _ & _ & Hs').
      inversion Hq; subst. congruence. }
  split.
  - intro H. inversion H. exists p. auto.
  - intros (q & Hq & -> & _). inversion Hq; subst. reflexivity.
Qed.

Lemma validate_age_int a :
  validate_field age (VInt a) =
    if a <? 18 then Invalid greater_than_equal else Valid (VInt a).
Proof. simpl. unfold int_schema. simpl. now destruct (a <? 18). Qed.

Lemma validate_age_valid v s :
  validate_field age v = Valid s <->
  exists n, lax_int v = Valid n /\ 18 <= n /\ s = VInt n.
Proof.
  simpl. unfold int_schema. destruct (lax_int v) as [n|e|m]; simpl.
  - destruct (Z.ltb_spec n 18) as [Hlt|Hge]; split.
    + discriminate.
    + intros (k & Hk & Hk18 & _). inversion Hk; subst. lia.
    + intro H. inversion H. eauto.
    + intros (k & Hk & _ & ->). now inversion Hk.
  - split; [discriminate|]. intros (k & Hk & _). discriminate.
  - split; [discriminate|]. intros (k & Hk & _). discriminate.
Qed.

Lemma validate_role_valid v s :
  validate_field role v = Valid s <->
  (v = VStr (str "admin") \/ v = VStr (str "superadmin")) /\ s = v.
Proof.
  destruct v as [r| | |];
    try (split; [discriminate|intros [[H|H] _]; discriminate]).
  simpl. unfold literal_schema. cbn [existsb].
  destruct (pystr_eqb r (str "admin")) eqn:E1.
  { apply pystr_eqb_eq in E1. subst. simpl. split.
    - intro H. inversion H. auto.
    - intros [_ ->]. reflexivity. }
  destruct (pystr_eqb r (str "superadmin")) eqn:E2.
  { apply pystr_eqb_eq in E2. subst. simpl. split.
    - intro H. inversion H. auto.
    - intros [_ ->]. reflexivity. }
  simpl. split; [discriminate|]. intros [[H|H] _]; inversion H; subst.
  - rewrite pystr_eqb_refl in E1. discriminate.
  - rewrite pystr_eqb_refl in E2. discriminate.
Qed.

Lemma validate_email_valid v s :
  validate_field email v = Valid s <->
  exists a e, v = VStr a /\ validate_email (trim a) = Some e /\ s = VStr e.
Proof.
  destruct v as [a| | |];
    try (split; [discriminate|intros (a&e&H&_); discriminate]).
  simpl. unfold email_schema. simpl.
  destruct (validate_email (trim a)) as [e|] eqn:E; simpl; split.
  - intro H. inversion H. eauto.
  - intros (b & e' & Hb & He & ->). inversion Hb; subst. congruence.
  - discriminate.
  - intros (b & e' & Hb & He & _). inversion Hb; subst. congruence.
Qed.

(** A name is what [normalize_name] returns: the [str] schema that runs
    after it finds nothing left to trim. *)
Lemma validate_name {L : CaseLaws U} f v :
  is_name f ->
  validate_field f v =
    match normalize_name v with
    | inl n => Valid (VStr n)
    | inr (RValueError m) => Invalid (value_error m)
    | inr (RTypeError m) => Propagate m
    end.
Proof.
  intros [-> | ->]; simpl;
    (destruct (normalize_name v) as [n|[m|m]] eqn:E; simpl;
     [rewrite (normalize_name_trim _ _ E)|..]; reflexivity).
Qed.

Lemma validate_field_no_raise f v :
  ~ is_name f \/ is_str v = true ->
  forall m, validate_field f v <> Propagate m.
Proof.
  intros H m. destruct f.
  - simpl. unfold email_schema. destruct v; simpl; try discriminate.
    destruct (validate_email _); discriminate.
  - destruct H as [H|H]; [exfalso; apply H; now left|].
    destruct v as [s| | |]; try discriminate. simpl.
    destruct (strip s); discriminate.
  - destruct H as [H|H]; [exfalso; apply H; now right|].
    destruct v as [s| | |]; try discriminate. simpl.
    destruct (strip s); discriminate.
  - destruct v as [p| | |]; try (simpl; discriminate).
    rewrite validate_password. cbn zeta.
    destruct (_ <? 8); [discriminate|].
    destruct (negb _); [discriminate|].
    destruct (negb _); discriminate.
  - unfold validate_field, int_schema, lax_int.
    destruct v as [s|n|b|]; try destruct (str_as_int s); cbn [obind];
      try discriminate; destruct (_ <? 18); cbn [obind]; discriminate.
  - unfold validate_field, literal_schema.
    destruct v; cbn [obind]; try discriminate.
    destruct (existsb _ _); discriminate.
Qed.

End Fields.

(** ** Construction *)

Section ConstructionFacts.
Context {U : UnicodeData} {V : Validators}.
Variable kw : kwargs.

Lemma validate_fields_step f fs d errors :
  validate_fields (f :: fs) kw d errors =
    match field_result kw f with
    | Valid v => validate_fields fs kw (update d f v) errors
    | Invalid e => validate_fields fs kw d ((f, e) :: errors)
    | Propagate m => inr (TypeError m)
    end.
Proof. unfold field_result. simpl. destruct (kw f); reflexivity. Qed.

(** Success means that no error was collected and every field is valid. *)
Lemma validate_fields_inl fs : forall d errors d',
  validate_fields fs kw d errors = inl d' ->
  errors = [] /\ forall f, In f fs -> field_valid kw f.
Proof.
  induction fs as [|f fs IH]; intros d errors d' H.
  - simpl in H. destruct errors; [|discriminate]. split; [reflexivity|].
    intros f [].
  - rewrite validate_fields_step in H.
    destruct (field_result kw f) as [v|e|m] eqn:E; try discriminate.
    + destruct (IH _ _ _ H) as [He Hall]. split; [exact He|].
      intros g [<-|Hg]; [now exists v|now apply Hall].
    + destruct (IH _ _ _ H) as [He _]. discriminate.
Qed.

(** The resulting [__dict__] holds the validated value of every field, and
    is otherwise as before. *)
Lemma validate_fields_dict fs : forall d errors d',
  validate_fields fs kw d errors = inl d' ->
  forall f,
    (In f fs -> forall v, field_result kw f = Valid v -> d' f = Some v)
    /\ (~ In f fs -> d' f = d f).
Proof.
  induction fs as [|f fs IH]; intros d errors d' H g.
  - simpl in H. destruct errors; [|discriminate]. inversion H; subst.
    split; [intros []|reflexivity].
  - rewrite validate_fields_step in H.
    destruct (field_result kw f) as [v|e|m] eqn:E; try discriminate.
    + destruct (IH _ _ _ H g) as [Hin Hout]. split.
      * intros Hg w Hw. destruct (in_dec (fun a b =>
          match Bool.bool_dec (field_eqb a b) true with
          | left p => left (proj1 (field_eqb_eq a b) p)
          | right n => right (fun q => n (proj2 (field_eqb_eq a b) q))
          end) g fs) as [Hfs|Hfs]; [now apply Hin|].
        destruct Hg as [<-|Hg]; [|contradiction].
        rewrite (Hout Hfs), update_same. congruence.
      * intro Hn. rewrite Hout by (intro; apply Hn; now right).
        apply update_other. intro; subst; apply Hn; now left.
    + destruct (validate_fields_inl _ _ _ _ H) as [He _]. discriminate.
Qed.

Lemma validate_fields_all_valid fs : forall d,
  (forall f, In f fs -> field_valid kw f) ->
  exists d', validate_fields fs kw d [] = inl d'.
Proof.
  induction fs as [|f fs IH]; intros d Hall.
  - now exists d.
  - rewrite validate_fields_step.
    destruct (Hall f (or_introl eq_refl)) as [v ->].
    apply IH. intros g Hg. apply Hall. now right.
Qed.

(** When no validator raises an exception of its own, the call fails
    exactly with the line errors of its fields. *)
Lemma validate_fields_errors fs : forall d errors,
  (forall f m, In f fs -> field_result kw f <> Propagate m) ->
  rev errors ++ line_errors kw fs <> [] ->
  validate_fields fs kw d errors =
    inr (ValidationError (rev errors ++ line_errors kw fs)).
Proof.
  induction fs as [|f fs IH]; intros d errors Hno Hne.
  - unfold line_errors in *. cbn [flat_map validate_fields] in *.
    rewrite app_nil_r in *.
    destruct errors as [|e errors]; [now exfalso; apply Hne|reflexivity].
  - rewrite validate_fields_step.
    assert (Hno' : forall g m, In g fs -> field_result kw g <> Propagate m)
      by (intros g m Hg; apply Hno; now right).
    unfold line_errors in *. simpl in *.
    destruct (field_result kw f) as [v|e|m] eqn:E.
    + apply IH; assumption.
    + rewrite IH; [|assumption|]; simpl; rewrite <- app_assoc; simpl;
        [reflexivity|exact Hne].
    + exfalso. apply (Hno f m); [now left|exact E].
Qed.

Lemma validate_field_raises f v m :
  validate_field f v = Propagate m ->
  is_name f /\ is_str v = false /\ m = "Name must be a string"%string.
Proof.
  intro H. destruct (is_str v) eqn:Es.
  - exfalso. exact (@validate_field_no_raise U V f v (or_intror Es) m H).
  - assert (Hn : is_name f).
    { destruct f; try (now left); try (now right); exfalso;
        refine (@validate_field_no_raise U V _ v (or_introl _) m H);
        intros [?|?]; discriminate. }
    split; [exact Hn|]. split; [reflexivity|].
    destruct Hn as [-> | ->]; destruct v; try discriminate;
      simpl in H; now inversion H.
Qed.


End ConstructionFacts.

Section InitFacts.
Context {U : UnicodeData} {V : Validators}.

Lemma init_inl m kw self :
  init m kw = inl self ->
  cls self = m /\
  forall f,
    (In f (model_fields m) ->
     exists v, field_result kw f = Valid v /\ dict self f = Some v)
    /\ (~ In f (model_fields m) -> dict self f = None).
Proof.
  unfold init.
  destruct (validate_fields (model_fields m) kw empty_dict []) as [d|e] eqn:E;
    [|discriminate].
  intro H. inversion H; subst; clear H. simpl. split; [reflexivity|].
  intro f. destruct (validate_fields_dict _ _ _ _ _ E f) as [Hin Hout].
  destruct (validate_fields_inl _ _ _ _ _ E) as [_ Hall]. split.
  - intro Hf. destruct (Hall f Hf) as [v Hv]. exists v. auto.
  - intro Hf. now rewrite Hout.
Qed.

Lemma init_valid m kw :
  (forall f, In f (model_fields m) -> field_valid kw f) ->
  exists self, init m kw = inl self.
Proof.
  intro Hall. unfold init.
  destruct (validate_fields_all_valid kw (model_fields m) empty_dict Hall)
    as [d ->]. eauto.
Qed.

Lemma init_invalid m kw f :
  In f (model_fields m) -> ~ field_valid kw f ->
  exists e, init m kw = inr e.
Proof.
  intros Hf Hn. destruct (init m kw) as [self|e] eqn:E; [|eauto].
  exfalso. apply Hn. destruct (init_inl _ _ _ E) as [_ H].
  destruct (proj1 (H f) Hf) as [v [Hv _]]. now exists v.
Qed.

Lemma names_no_raise kw :
  names_are_strings kw -> forall f m, field_result kw f <> Propagate m.
Proof.
  intros Hs f m. unfold field_result.
  destruct (kw f) as [v|] eqn:E; [|discriminate].
  intro H. apply validate_field_raises in H. destruct H as (Hn & Hv & _).
  rewrite (Hs f v Hn E) in Hv. discriminate.
Qed.

Lemma init_line_error m kw f e :
  names_are_strings kw -> In f (model_fields m) ->
  field_result kw f = Invalid e ->
  exists es, init m kw = inr (ValidationError es) /\ In (f, e) es.
Proof.
  intros Hs Hf He.
  assert (Hin : In (f, e) (line_errors kw (model_fields m))).
  { unfold line_errors. apply in_flat_map. exists f. split; [exact Hf|].
    rewrite He. now left. }
  exists (line_errors kw (model_fields m)). split; [|exact Hin].
  unfold init. rewrite validate_fields_errors; simpl.
  - reflexivity.
  - intros g k _. now apply names_no_raise.
  - intro E. rewrite E in Hin. destruct Hin.
Qed.

Lemma init_line_errors m kw f e :
  names_are_strings kw -> In f (model_fields m) ->
  field_result kw f = Invalid e ->
  init m kw = inr (ValidationError (line_errors kw (model_fields m)))
  /\ In (f, e) (line_errors kw (model_fields m))
  /\ forall e', In (f, e') (line_errors kw (model_fields m)) -> e' = e.
Proof.
  intros Hs Hf He.
  assert (Hin : In (f, e) (line_errors kw (model_fields m))).
  { unfold line_errors. apply in_flat_map. exists f. split; [exact Hf|].
    rewrite He. now left. }
  split; [|split; [exact Hin|]].
  - unfold init. rewrite validate_fields_errors; simpl.
    + reflexivity.
    + intros g k _. now apply names_no_raise.
    + intro E. rewrite E in Hin. destruct Hin.
  - intros e' Hin'. unfold line_errors in Hin'. apply in_flat_map in Hin'.
    destruct Hin' as (g & _ & Hg).
    destruct (field_result kw g) as [v|x|msg] eqn:Eg; simpl in Hg;
      [contradiction| |contradiction].
    destruct Hg as [Hg|[]]. inversion Hg; subst. congruence.
Qed.

Lemma name_in_model m f : is_name f -> In f (model_fields m).
Proof. intros [-> | ->]; destruct m; simpl; auto. Qed.


Lemma init_stores m kw f v :
  In f (model_fields m) -> field_result kw f = Valid v ->
  others_valid m kw f ->
  exists self, init m kw = inl self /\ dict self f = Some v.
Proof.
  intros Hf Hv Ho. destruct (init_valid m kw) as [self E].
  { intros g Hg. destruct g, f; try (now exists v);
      (apply Ho; [exact Hg|discriminate]). }
  exists self. split; [exact E|].
  destruct (init_inl _ _ _ E) as [_ H].
  destruct (proj1 (H f) Hf) as [w [Hw ->]]. congruence.
Qed.

End InitFacts.

(** ** Passwords *)

Lemma password_in_model m : m <> BaseUser -> In password (model_fields m).
Proof. destruct m; simpl; intuition congruence. Qed.

Lemma has_digit_trim {U : UnicodeData} p :
  has_digit p = false -> has_digit (trim p) = false.
Proof.
  unfold has_digit. intro H.
  destruct (existsb isdigit (trim p)) eqn:E; [|reflexivity].
  apply existsb_exists in E. destruct E as (c & Hc & Hd).
  apply strip_with_In in Hc.
  assert (existsb isdigit p = true) by (apply existsb_exists; eauto).
  congruence.
Qed.

Lemma has_special_trim p :
  has_special p = false -> has_special (trim p) = false.
Proof.
  unfold has_special. intro H.
  destruct (existsb _ (trim p)) eqn:E; [|reflexivity].
  apply existsb_exists in E. destruct E as (c & Hc & Hd).
  apply strip_with_In in Hc.
  assert (existsb (fun ch => in_chars ch SPECIALS) p = true)
    by (apply existsb_exists; eauto).
  congruence.
Qed.

Lemma trim_length p :
  Z.of_nat (List.length (trim p)) <= Z.of_nat (List.length p).
Proof. pose proof (strip_with_length is_white_space p). unfold trim. lia. Qed.

Section Passwords.
Context {U : UnicodeData} {V : Validators}.

(** C1 (as amended).  The password rules are applied to the password
    trimmed of leading and trailing white space, and the trimmed password is
    what is stored: for every password [p] whose trimmed form has at least 8
    characters, a digit (in the sense of [str.isdigit], which covers the
    decimal digits) and a character of [!@#$%^&*], the construction of a
    [User] or [AdminUser] whose other fields are valid succeeds and stores
    [trim p]; in particular a password without leading or trailing white
    space is stored unchanged. *)
Theorem password_accepted_and_stored_trimmed m kw p :
  m <> BaseUser ->
  kw password = Some (VStr p) ->
  8 <= Z.of_nat (List.length (trim p)) ->
  has_digit (trim p) = true ->
  has_special (trim p) = true ->
  others_valid m kw password ->
  exists self,
    init m kw = inl self
    /\ dict self password = Some (VStr (trim p))
    /\ (trimmed is_white_space p -> dict self password = Some (VStr p)).
Proof.
  intros Hm Hk Hlen Hd Hs Ho.
  destruct (init_stores m kw password (VStr (trim p))) as (self & E & Hp).
  - now apply password_in_model.
  - unfold field_result. rewrite Hk. apply validate_password_valid.
    exists p. auto.
  - exact Ho.
  - exists self. split; [exact E|]. split; [exact Hp|].
    intro Ht. rewrite Hp. unfold trim. now rewrite (strip_trimmed _ _ Ht).
Qed.

Lemma password_error_invalid p :
  Z.of_nat (List.length (trim p)) < 8 \/ has_digit (trim p) = false
  \/ has_special (trim p) = false ->
  validate_field password (VStr p) = Invalid (password_error p).
Proof.
  intro H. rewrite validate_password. unfold password_error. cbn zeta.
  destruct (Z.ltb_spec (Z.of_nat (List.length (trim p))) 8) as [Hl|Hl];
    [reflexivity|].
  destruct (has_digit (trim p)); cbn [negb]; [|reflexivity].
  destruct (has_special (trim p)); cbn [negb]; [|reflexivity].
  destruct H as [H|[H|H]]; [lia|discriminate..].
Qed.

(** C2 (as amended).  A password that breaks a rule makes the construction
    fail.  The rules are those of the trimmed password, tried in the order
    length, digit, special character, and the error names the first rule
    that is broken and no other: when the name arguments are strings, the
    [ValidationError] lists exactly one error for [password], which is
    [string_too_short] if the trimmed password has fewer than 8 characters;
    otherwise the missing-digit message if no character of it is a digit
    in the sense of [str.isdigit]; otherwise the missing-special-character
    message.  A rule broken by the password as given is broken by the
    trimmed password too.  Each of the three errors occurs: on the
    fragment, "short1!", "NoDigit!" and "NoSpecial1" get one each. *)
Theorem invalid_password_rejected m kw p :
  m <> BaseUser ->
  kw password = Some (VStr p) ->
  Z.of_nat (List.length (trim p)) < 8 \/ has_digit (trim p) = false
  \/ has_special (trim p) = false ->
  (exists e, init m kw = inr e)
  /\ (names_are_strings kw ->
      exists es, init m kw = inr (ValidationError es)
                 /\ In (password, password_error p) es
                 /\ forall e, In (password, e) es -> e = password_error p)
  /\ (Z.of_nat (List.length (trim p)) < 8 ->
      password_error p = string_too_short)
  /\ (8 <= Z.of_nat (List.length (trim p)) -> has_digit (trim p) = false ->
      password_error p =
        value_error "Password must contain at least one digit")
  /\ (8 <= Z.of_nat (List.length (trim p)) ->
      has_digit (trim p) = true -> has_special (trim p) = false ->
      password_error p =
        value_error "Password must contain at least one special char from ")
  /\ (Z.of_nat (List.length p) < 8 -> Z.of_nat (List.length (trim p)) < 8)
  /\ (has_digit p = false -> has_digit (trim p) = false)
  /\ (has_special p = false -> has_special (trim p) = false)
  /\ @validate_field unicode_fragment sample_validators password
       (VStr (str "short1!")) = Invalid string_too_short
  /\ @validate_field unicode_fragment sample_validators password
       (VStr (str "NoDigit!"))
     = Invalid (value_error "Password must contain at least one digit")
  /\ @validate_field unicode_fragment sample_validators password
       (VStr (str "NoSpecial1"))
     = Invalid (value_error
                  "Password must contain at least one special char from ").
Proof.
  intros Hm Hk Hbad.
  assert (Hf : In password (model_fields m)) by now apply password_in_model.
  assert (Hinv : field_result kw password = Invalid (password_error p)).
  { unfold field_result. rewrite Hk. now apply password_error_invalid. }
  split; [|split; [|split; [|split; [|split; [|split; [|split;
    [|split; [|repeat split]]]]]]]].
  - apply (init_invalid m kw password Hf). intros [v Hv]. congruence.
  - intro Hs.
    destruct (init_line_errors m kw password _ Hs Hf Hinv) as (E & Hin & Hu).
    exists (line_errors kw (model_fields m)). auto.
  - intro Hl. unfold password_error. cbn zeta.
    destruct (Z.ltb_spec (Z.of_nat (List.length (trim p))) 8); [reflexivity|lia].
  - intros Hl Hd. unfold password_error. cbn zeta.
    destruct (Z.ltb_spec (Z.of_nat (List.length (trim p))) 8); [lia|].
    now rewrite Hd.
  - intros Hl Hd Hsp. unfold password_error. cbn zeta.
    destruct (Z.ltb_spec (Z.of_nat (List.length (trim p))) 8); [lia|].
    now rewrite Hd.
  - pose proof (trim_length p). lia.
  - apply has_digit_trim.
  - apply has_special_trim.
Qed.

End Passwords.

(** ** Assignment *)

Section AssignmentFacts.
Context {U : UnicodeData} {V : Validators}.

Lemma setattr_field self f v :
  has_field (cls self) f = true ->
  setattr f v self =
    match validate_field f v with
    | Valid v' => (inl tt, {| cls := cls self;
                              dict := update (dict self) f v' |})
    | Invalid e => (inr (ValidationError [(f, e)]), self)
    | Propagate m => (inr (TypeError m), self)
    end.
Proof.
  intro H. unfold setattr. rewrite H. cbn [negb].
  destruct (validate_field f v); reflexivity.
Qed.

Lemma setattr_failure_unchanged self f v e self' :
  setattr f v self = (inr e, self') -> self' = self.
Proof.
  unfold setattr, raise, store.
  destruct (negb (has_field (cls self) f)); [now inversion 1|].
  destruct (validate_field f v); now inversion 1.
Qed.

Lemma setattr_success self f v self' :
  setattr f v self = (inl tt, self') ->
  exists v', validate_field f v = Valid v'
             /\ In f (model_fields (cls self))
             /\ self' = {| cls := cls self;
                           dict := update (dict self) f v' |}.
Proof.
  unfold setattr, raise, store.
  destruct (has_field (cls self) f) eqn:Hf; cbn [negb]; [|discriminate].
  destruct (validate_field f v) as [v'|e|m]; try discriminate.
  intro H. inversion H. exists v'. split; [reflexivity|]. split; [|reflexivity].
  unfold has_field in Hf. apply existsb_exists in Hf.
  destruct Hf as (g & Hg & Heq). apply field_eqb_eq in Heq. now subst.
Qed.


End AssignmentFacts.

(** ** Names *)

Section Names.
Context {U : UnicodeData} {L : CaseLaws U} {V : Validators}.



End Names.

(** ** Permissions *)

Lemma in_admin_permissions x :
  existsb (pystr_eqb x) ADMIN_PERMISSIONS = true <->
  x = str "read" \/ x = str "write" \/ x = str "delete"
  \/ x = str "view_reports" \/ x = str "manage_users".
Proof.
  rewrite existsb_exists. split.
  - intros (y & Hy & E). apply pystr_eqb_eq in E. subst y.
    unfold ADMIN_PERMISSIONS in Hy. simpl in Hy. intuition auto.
  - intro H. exists x. split; [|apply pystr_eqb_refl].
    unfold ADMIN_PERMISSIONS. simpl. intuition auto.
Qed.

(** C4.  [has_permission] always returns a boolean, raises nothing and
    leaves the record as it is.  Under the role "superadmin" the answer is
    [true] for every string; under the role "admin" it is [true] exactly for
    the five strings read, write, delete, view_reports and manage_users. *)
Theorem has_permission_total_and_pure (self : instance) (x : pystr) :
  (forall r, dict self role = Some r ->
     exists b, has_permission x self = (inl b, self))
  /\ (dict self role = Some (VStr (str "superadmin")) ->
      has_permission x self = (inl true, self))
  /\ (dict self role = Some (VStr (str "admin")) ->
      exists b,
        has_permission x self = (inl b, self)
        /\ (b = true <->
            x = str "read" \/ x = str "write" \/ x = str "delete"
            \/ x = str "view_reports" \/ x = str "manage_users")).
Proof.
  unfold has_permission, mbind, getattr, ret. split; [|split].
  - intros r ->. destruct (pyval_eqb r _); eauto.
  - intros ->. reflexivity.
  - intros ->. exists (existsb (pystr_eqb x) ADMIN_PERMISSIONS).
    split; [reflexivity|apply in_admin_permissions].
Qed.

(** ** Roles, ages, atomic assignment and the invariant *)

Lemma has_field_In m f : has_field m f = true <-> In f (model_fields m).
Proof.
  unfold has_field. rewrite existsb_exists. split.
  - intros (g & Hg & E). apply field_eqb_eq in E. now subst.
  - intro H. exists f. split; [exact H|now apply field_eqb_eq].
Qed.

Section Records.
Context {U : UnicodeData} {V : Validators}.

Lemma validate_role_invalid v :
  v <> VStr (str "admin") -> v <> VStr (str "superadmin") ->
  validate_field role v = Invalid literal_error.
Proof.
  intros H1 H2.
  destruct (validate_field role v) as [s|e|m] eqn:E.
  - apply validate_role_valid in E. destruct E as [[E|E] _]; contradiction.
  - destruct v as [r| | |]; simpl in E; try (now inversion E).
    unfold literal_schema in E.
    destruct (_ || _); simpl in E; now inversion E.
  - apply validate_field_raises in E. destruct E as [[E|E] _]; discriminate.
Qed.

(** C5.  An [AdminUser] is constructed only with the role "admin" or
    "superadmin", which is stored as given; every other value, the empty
    string and "administrator" among them, makes the construction fail, and
    the [ValidationError] then lists a [literal_error] for [role] (unless a
    name argument of a wrong type raised its [TypeError] first). *)
Theorem admin_role_closed_enumeration (kw : kwargs) :
  (forall self, init AdminUser kw = inl self ->
     (kw role = Some (VStr (str "admin"))
      \/ kw role = Some (VStr (str "superadmin")))
     /\ dict self role = kw role)
  /\ (forall v, kw role = Some v ->
        v <> VStr (str "admin") -> v <> VStr (str "superadmin") ->
        (exists e, init AdminUser kw = inr e)
        /\ (names_are_strings kw ->
            exists es, init AdminUser kw = inr (ValidationError es)
                       /\ In (role, literal_error) es))
  /\ (forall v, kw role = Some v ->
        v = VStr (str "admin") \/ v = VStr (str "superadmin") ->
        others_valid AdminUser kw role ->
        exists self, init AdminUser kw = inl self /\ dict self role = Some v)
  /\ validate_field role (VStr (str "")) = Invalid literal_error
  /\ validate_field role (VStr (str "administrator")) = Invalid literal_error.
Proof.
  assert (Hf : In role (model_fields AdminUser)) by (simpl; tauto).
  split; [|split; [|split; [|split]]].
  - intros self E. destruct (init_inl _ _ _ E) as [_ H].
    destruct (proj1 (H role) Hf) as (v & Hv & Hd).
    unfold field_result in Hv. destruct (kw role) as [w|]; [|discriminate].
    apply validate_role_valid in Hv. destruct Hv as [Hw ->].
    split; [|exact Hd]. destruct Hw as [-> | ->]; auto.
  - intros v Hk H1 H2.
    assert (Er : field_result kw role = Invalid literal_error).
    { unfold field_result. rewrite Hk. now apply validate_role_invalid. }
    split.
    + apply (init_invalid AdminUser kw role Hf). intros [w Hw]. congruence.
    + intro Hs. now apply init_line_error.
  - intros v Hk Hv Ho. apply init_stores; [exact Hf| |exact Ho].
    unfold field_result. rewrite Hk. apply validate_role_valid. auto.
  - apply validate_role_invalid; discriminate.
  - apply validate_role_invalid; discriminate.
Qed.

Lemma age_invalid_fails m kw v :
  In age (model_fields m) -> kw age = Some v ->
  (forall n, lax_int v = Valid n -> n < 18) ->
  exists e, init m kw = inr e.
Proof.
  intros Hf Hk Hsmall. apply (init_invalid m kw age Hf). intros [w Hw].
  unfold field_result in Hw. rewrite Hk in Hw.
  apply validate_age_valid in Hw. destruct Hw as (n & Hn & Hge & _).
  specialize (Hsmall n Hn). lia.
Qed.

Lemma age_valid_stored m kw v n :
  In age (model_fields m) -> kw age = Some v ->
  lax_int v = Valid n -> 18 <= n -> others_valid m kw age ->
  exists self, init m kw = inl self /\ dict self age = Some (VInt n).
Proof.
  intros Hf Hk Hn Hge Ho. apply init_stores; [exact Hf| |exact Ho].
  unfold field_result. rewrite Hk. apply validate_age_valid. eauto.
Qed.

(** C6 (as amended).  The age is validated as a lax-mode integer with a
    minimum of 18 and no maximum.  For an integer [a], the construction
    fails when [a < 18] and, the other fields being valid, succeeds and
    stores [a] when [a >= 18].  A boolean counts as 0 or 1 and fails.  A
    value that is not an integer is converted first: [None] fails, and a
    string fails when it does not convert or converts to less than 18, but
    is accepted, and stored as the integer it denotes, when it converts to
    18 or more. *)
Theorem age_at_least_18_after_lax_conversion m kw v :
  In age (model_fields m) -> kw age = Some v ->
  (forall a, v = VInt a -> a < 18 -> exists e, init m kw = inr e)
  /\ (forall a, v = VInt a -> 18 <= a -> others_valid m kw age ->
        exists self, init m kw = inl self /\ dict self age = Some (VInt a))
  /\ (forall b, v = VBool b -> exists e, init m kw = inr e)
  /\ (v = VNone -> exists e, init m kw = inr e)
  /\ (forall s, v = VStr s ->
        match str_as_int s with
        | None => exists e, init m kw = inr e
        | Some n =>
            (n < 18 -> exists e, init m kw = inr e)
            /\ (18 <= n -> others_valid m kw age ->
                exists self,
                  init m kw = inl self /\ dict self age = Some (VInt n))
        end).
Proof.
  intros Hf Hk. split; [|split; [|split; [|split]]].
  - intros a -> Ha. apply (age_invalid_fails m kw (VInt a) Hf Hk).
    intros n Hn. inversion Hn. lia.
  - intros a -> Ha Ho. now apply (age_valid_stored m kw (VInt a) a).
  - intros b ->. apply (age_invalid_fails m kw (VBool b) Hf Hk).
    intros n Hn. inversion Hn. destruct b; lia.
  - intros ->. apply (age_invalid_fails m kw VNone Hf Hk). discriminate.
  - intros s ->. destruct (str_as_int s) as [n|] eqn:E.
    + split.
      * intro Hn. apply (age_invalid_fails m kw (VStr s) Hf Hk).
        simpl. rewrite E. intros k Hk'. inversion Hk'. lia.
      * intros Hn Ho. apply (age_valid_stored m kw (VStr s) n); auto.
        simpl. now rewrite E.
    + apply (age_invalid_fails m kw (VStr s) Hf Hk).
      simpl. rewrite E. discriminate.
Qed.

(** C7.  A failed assignment is atomic.  Whenever [self.f = v] raises, the
    record is exactly as before; assigning to a field a value that its
    validation refuses does raise (a [ValidationError] naming the field, or
    the [TypeError] of [normalize_name] for a name that is not a string);
    [self.age = 17] raises and leaves the record, its age included, as it
    was.  A construction that fails returns no record. *)
Theorem failed_assignment_is_atomic (self : instance) (f : field) (v : pyval) :
  (forall e self', setattr f v self = (inr e, self') -> self' = self)
  /\ (In f (model_fields (cls self)) ->
      (forall v', validate_field f v <> Valid v') ->
      exists e,
        setattr f v self = (inr e, self)
        /\ (e = TypeError "Name must be a string"
            \/ exists err, e = ValidationError [(f, err)]))
  /\ (In age (model_fields (cls self)) ->
      setattr age (VInt 17) self
      = (inr (ValidationError [(age, greater_than_equal)]), self))
  /\ (forall m kw e, init m kw = inr e ->
        forall record, init m kw <> inl record).
Proof.
  split; [|split; [|split]].
  - intros e self'. apply setattr_failure_unchanged.
  - intros Hf Hbad. apply has_field_In in Hf. rewrite (setattr_field _ _ _ Hf).
    destruct (validate_field f v) as [v'|err|m] eqn:E.
    + now elim (Hbad v').
    + eauto.
    + apply validate_field_raises in E. destruct E as (_ & _ & ->). eauto.
  - intro Hf. apply has_field_In in Hf. now rewrite (setattr_field _ _ _ Hf).
  - intros m kw e E record. rewrite E. discriminate.
Qed.

End Records.

(** ** The invariant of reachable records *)

Section Invariant.
Context {U : UnicodeData} {L : CaseLaws U} {V : Validators}.

Lemma validated_field_invariant f v v' :
  validate_field f v = Valid v' -> field_invariant f (Some v').
Proof.
  intro H. destruct f.
  - apply validate_email_valid in H. destruct H as (a & e & -> & He & ->).
    simpl. eauto.
  - rewrite (validate_name first_name v (or_introl eq_refl)) in H.
    destruct (normalize_name v) as [n|[m|m]] eqn:E; inversion H; subst.
    exists n. split; [reflexivity|].
    destruct (normalize_name_strip _ _ E) as [-> Hne]. eauto.
  - rewrite (validate_name last_name v (or_intror eq_refl)) in H.
    destruct (normalize_name v) as [n|[m|m]] eqn:E; inversion H; subst.
    exists n. split; [reflexivity|].
    destruct (normalize_name_strip _ _ E) as [-> Hne]. eauto.
  - apply validate_password_valid in H.
    destruct H as (p & -> & -> & Hl & Hd & Hs). exists (trim p). auto.
  - apply validate_age_valid in H. destruct H as (n & _ & Hge & ->).
    exists n. auto.
  - apply validate_role_valid in H. destruct H as [[-> | ->] ->]; simpl; auto.
Qed.

(** C10.  Every record obtained by a successful construction followed by
    any sequence of assignments (those that fail change nothing) satisfies
    the constraints of all its fields: each name is the result of
    [normalize_name] and is not empty once stripped, the password has at
    least 8 characters, a digit and a special character, the age is at
    least 18, and the role of an [AdminUser] is "admin" or "superadmin". *)
Theorem reachable_records_are_valid (self : instance) :
  reachable self -> valid_instance self.
Proof.
  induction 1 as [m kw self E | self f v r self' Hr IH E].
  - destruct (init_inl _ _ _ E) as [Hc H]. intros f Hf. rewrite Hc in Hf.
    destruct (proj1 (H f) Hf) as (v' & Hv & ->).
    unfold field_result in Hv. destruct (kw f) as [v|]; [|discriminate].
    now apply (validated_field_invariant f v).
  - destruct r as [[]|e].
    + apply setattr_success in E. destruct E as (v' & Hv & Hf & ->).
      intros g Hg. simpl in *.
      destruct (field_eqb g f) eqn:Eg.
      * apply field_eqb_eq in Eg. subst g. rewrite update_same.
        now apply (validated_field_invariant f v).
      * rewrite update_other; [now apply IH|].
        intro; subst. rewrite (proj2 (field_eqb_eq f f) eq_refl) in Eg.
        discriminate.
    + apply setattr_failure_unchanged in E. now subst.
Qed.

End Invariant.

(** ** Idempotence of the name normalisation *)

Section Idempotence.
Context {U : UnicodeData} {L : CaseLaws U} {S : CaseStable U}.

Lemma lower_ucs4_lowered before c after :
  Forall lowered (lower_ucs4 before c after).
Proof.
  unfold lower_ucs4. destruct (c =? SIGMA).
  - constructor; [|constructor]. unfold handle_capital_sigma.
    destruct (_ && _); (split; [discriminate|apply sigma_fixed]).
  - apply Forall_forall. intros x Hx. split.
    + intros ->. exact (tolower_no_sigma c Hx).
    + exact (tolower_fixed c x Hx).
Qed.

Lemma lower_from_lowered s : forall before,
  Forall lowered (lower_from before s).
Proof.
  induction s as [|c r IH]; intros before; simpl; [constructor|].
  apply Forall_app. split; [apply lower_ucs4_lowered|apply IH].
Qed.

Lemma lower_from_fixed s : forall before,
  Forall lowered s -> lower_from before s = s.
Proof.
  induction s as [|c r IH]; intros before H; [reflexivity|].
  inversion H as [|? ? [Hc1 Hc2] Hr]; subst. simpl. unfold lower_ucs4.
  destruct (Z.eqb_spec c SIGMA); [contradiction|].
  rewrite Hc2, IH by assumption. reflexivity.
Qed.

(** Without a capital sigma the context plays no part in lower-casing. *)
Lemma lower_from_app x : forall before y,
  ~ In SIGMA x ->
  lower_from before (x ++ y)
  = lower_from before x ++ lower_from (rev x ++ before) y.
Proof.
  induction x as [|c r IH]; intros before y Hn; [reflexivity|].
  simpl. unfold lower_ucs4.
  destruct (Z.eqb_spec c SIGMA) as [->|Hc]; [elim Hn; now left|].
  rewrite IH by (intro; apply Hn; now right).
  rewrite <- !app_assoc. reflexivity.
Qed.

Lemma lowered_no_sigma s : Forall lowered s -> ~ In SIGMA s.
Proof.
  intros H Hin. rewrite Forall_forall in H. now destruct (H _ Hin).
Qed.

(** Lower-casing a title-case form followed by lower-case text. *)
Lemma lower_title_app t r :
  ~ In SIGMA (tl t) -> Forall lowered r ->
  lower (t ++ r) = lower t ++ r.
Proof.
  intros Ht Hr. unfold lower. destruct t as [|c t']; simpl.
  - now apply lower_from_fixed.
  - simpl in Ht. rewrite lower_from_app by exact Ht.
    rewrite (lower_from_fixed r) by exact Hr.
    assert (Hc : lower_ucs4 [] c (t' ++ r) = lower_ucs4 [] c t').
    { unfold lower_ucs4. destruct (c =? SIGMA); reflexivity. }
    rewrite Hc. now rewrite <- app_assoc.
Qed.

Lemma capitalize_app x r :
  x <> [] -> Forall lowered x -> Forall lowered r ->
  capitalize (x ++ r) = capitalize x ++ r.
Proof.
  intros Hne Hx Hr. destruct x as [|c y]; [congruence|]. simpl.
  inversion Hx; subst.
  rewrite lower_from_app by now apply lowered_no_sigma.
  rewrite (lower_from_fixed r) by exact Hr.
  now rewrite <- app_assoc.
Qed.

Lemma lower_nonempty s : s <> [] -> lower s <> [].
Proof.
  destruct s as [|c r]; [congruence|]. intros _. unfold lower. simpl.
  intro H. apply app_eq_nil in H. destruct H as [H _].
  unfold lower_ucs4 in H. destruct (c =? SIGMA); [discriminate|].
  exact (tolower_nonempty c H).
Qed.

(** Normalising a normalised name again only re-normalises the title-case
    form of its first character. *)
Lemma renormalize s c r :
  lower (strip s) = c :: r ->
  normalize_name (VStr (capitalize (lower (strip s))))
  = inl (capitalize (lower (totitle_full c)) ++ r).
Proof.
  intro E.
  assert (Hs : strip s <> []) by (intro H; rewrite H in E; discriminate).
  assert (En : normalize_name (VStr s) = inl (capitalize (c :: r))).
  { rewrite <- E. unfold normalize_name.
    destruct (strip s); [congruence|reflexivity]. }
  destruct (normalize_name_strip _ _ En) as [Hfix Hne].
  assert (Hlow : Forall lowered (c :: r)).
  { rewrite <- E. apply lower_from_lowered. }
  inversion Hlow as [|? ? Hc Hr]; subst.
  assert (Ecap : capitalize (c :: r) = totitle_full c ++ r).
  { simpl. now rewrite lower_from_fixed. }
  rewrite E, Ecap in *. unfold normalize_name. cbv zeta. rewrite Hfix.
  destruct (totitle_full c ++ r) as [|a b] eqn:Ea; [congruence|].
  rewrite <- Ea. f_equal.
  rewrite lower_title_app by (exact Hr || apply totitle_tail_no_sigma).
  apply capitalize_app.
  - apply lower_nonempty, totitle_nonempty.
  - apply lower_from_lowered.
  - exact Hr.
Qed.

(** A title-case form made of one letter whose lower-case letter has it as
    title-case form is stable. *)
Lemma single_title_form_stable c t x :
  totitle_full c = [t] -> lower [t] = [x] -> totitle_full x = [t] ->
  capitalize (lower (totitle_full c)) = totitle_full c.
Proof. intros -> -> Hx. simpl. now rewrite Hx. Qed.

(** C8 (as amended).  Normalising a name twice gives the same result as
    normalising it once exactly when the title-case form of the first
    character of the stripped, lower-cased name is itself unchanged by
    lower-casing and capitalising (as it is when that form is a single
    letter whose lower-case letter has it as title-case form). *)
Theorem normalize_twice_iff_title_form_stable (s n : pystr) (c : Z) (r : pystr) :
  normalize_name (VStr s) = inl n ->
  lower (strip s) = c :: r ->
  (normalize_name (VStr n) = inl n
   <-> capitalize (lower (totitle_full c)) = totitle_full c).
Proof.
  intros En E.
  assert (Hn : n = capitalize (lower (strip s))).
  { simpl in En. destruct (strip s); [discriminate|now inversion En]. }
  assert (Hlow : Forall lowered (c :: r)).
  { rewrite <- E. apply lower_from_lowered. }
  inversion Hlow as [|? ? Hc Hr]; subst.
  rewrite (renormalize s c r E), E.
  assert (Ecap : capitalize (c :: r) = totitle_full c ++ r).
  { simpl. now rewrite lower_from_fixed. }
  rewrite Ecap. split.
  - intro H. inversion H as [H']. now apply app_inv_tail in H'.
  - now intros ->.
Qed.

End Idempotence.

(** ** The fragment satisfies the laws *)

Lemma py_isspace_spec c :
  py_isspace c = true <->
  (9 <= c <= 13 \/ 28 <= c <= 32 \/ c = 133 \/ c = 160 \/ c = 5760
   \/ 8192 <= c <= 8202 \/ 8232 <= c <= 8233 \/ c = 8239 \/ c = 8287
   \/ c = 12288).
Proof.
  unfold py_isspace, in_ranges.
  cbv [py_space_ranges existsb fst snd].
  split_cmp; split; intro; try lia; try discriminate; reflexivity.
Qed.

Lemma py_isspace_false c :
  py_isspace c = false <->
  ~ (9 <= c <= 13 \/ 28 <= c <= 32 \/ c = 133 \/ c = 160 \/ c = 5760
     \/ 8192 <= c <= 8202 \/ 8232 <= c <= 8233 \/ c = 8239 \/ c = 8287
     \/ c = 12288).
Proof.
  rewrite <- py_isspace_spec. destruct (py_isspace c); split; congruence.
Qed.

Lemma fragment_tolower_cases c x :
  In x (fragment_tolower c) ->
  (x = c /\ fragment_tolower x = [x])
  \/ (x = c + 32 /\ (65 <= c <= 90 \/ 192 <= c <= 214 \/ 216 <= c <= 222
                     \/ 913 <= c <= 929 \/ 931 <= c <= 937
                     \/ 1040 <= c <= 1071))
  \/ (x = 255 /\ c = 376)
  \/ (x = c + 80 /\ 1024 <= c <= 1039).
Proof.
  unfold fragment_tolower at 1. cbv [shift_lookup lower_shifts].
  split_cmp; intros [<-|[]]; try (right; lia).
  all: left; split; [reflexivity|].
  all: unfold fragment_tolower; cbv [shift_lookup lower_shifts];
    split_cmp; reflexivity.
Qed.

Lemma fragment_case_laws : CaseLaws unicode_fragment.
Proof.
  constructor; cbn [tolower_full totitle_full unicode_fragment].
  - intro c. unfold fragment_tolower.
    destruct (shift_lookup lower_shifts c); discriminate.
  - intro c. unfold fragment_totitle.
    destruct (c =? 223); [discriminate|].
    destruct (c =? 329); [discriminate|].
    destruct (shift_lookup title_shifts c); discriminate.
  - intros c x Hc Hx. apply py_isspace_false. apply py_isspace_false in Hc.
    apply fragment_tolower_cases in Hx. lia.
  - intros c x Hc. apply py_isspace_false in Hc. rewrite py_isspace_false.
    unfold fragment_totitle. cbv [shift_lookup title_shifts].
    split_cmp; cbn [In]; intros Hin; lia.
Qed.

Lemma fragment_case_stable : CaseStable unicode_fragment.
Proof.
  constructor; cbn [tolower_full totitle_full unicode_fragment].
  - intros c Hx. apply fragment_tolower_cases in Hx. unfold SIGMA in Hx.
    destruct Hx as [[_ Hx]|Hx]; [vm_compute in Hx; discriminate|lia].
  - intros c x Hx. apply fragment_tolower_cases in Hx.
    destruct Hx as [[_ Hx]|Hx]; [exact Hx|].
    unfold fragment_tolower. cbv [shift_lookup lower_shifts].
    split_cmp; reflexivity.
  - split; reflexivity.
  - intro c. unfold fragment_totitle, SIGMA.
    cbv [shift_lookup title_shifts].
    split_cmp; cbn [tl In]; intros Hin; lia.
Qed.

(** * The claims on concrete inputs *)

Section Concrete.
#[local] Existing Instance unicode_fragment.
#[local] Existing Instance sample_validators.
#[local] Existing Instance fragment_case_laws.
#[local] Existing Instance fragment_case_stable.

Lemma admin_record_init : init AdminUser admin_kwargs = inl admin_record.
Proof. reflexivity. Qed.

Lemma admin_kwargs_valid m f : others_valid m admin_kwargs f.
Proof.
  intros g _ _. destruct g; eexists; vm_compute; reflexivity.
Qed.

Lemma with_arg_others_valid m f v : others_valid m (with_arg admin_kwargs f v) f.
Proof.
  intros g _ Hg. unfold field_valid, field_result, with_arg.
  rewrite update_other by exact Hg.
  destruct g; eexists; vm_compute; reflexivity.
Qed.

(** The cases of [tests/test_models.py] that involve no e-mail rule. *)

Lemma test_first_name_normalization :
  map (fun s => normalize_name (VStr s))
      [ [0x43F; 0x435; 0x442; 0x44F]; [0x41F; 0x435; 0x442; 0x44F];
        [0x20; 0x20; 0x43F; 0x435; 0x442; 0x44F; 0x20; 0x20];
        VaSYa; str "john"; str "JOHN" ]
  = map inl
      [ [0x41F; 0x435; 0x442; 0x44F]; [0x41F; 0x435; 0x442; 0x44F];
        [0x41F; 0x435; 0x442; 0x44F]; Vasya; str "John"; str "John" ].
Proof. reflexivity. Qed.

Lemma test_empty_name_raises :
  map (fun s => normalize_name (VStr s)) [str ""; str "   "]
  = [inr (RValueError "Name must not be empty");
     inr (RValueError "Name must not be empty")].
Proof. reflexivity. Qed.

Lemma test_valid_passwords :
  map (fun p => validate_field password (VStr (str p)))
      ["Abcdef1!"; "p@ssw0rd!"; "Qwerty9#"]%string
  = map (fun p => Valid (VStr (str p)))
      ["Abcdef1!"; "p@ssw0rd!"; "Qwerty9#"]%string.
Proof. reflexivity. Qed.

Lemma test_invalid_passwords :
  map (fun p => validate_field password (VStr (str p)))
      ["short1!"; "longbutnospecial1"; "!!!!@@@@"]%string
  = [ Invalid string_too_short;
      Invalid (value_error
                 "Password must contain at least one special char from ");
      Invalid (value_error "Password must contain at least one digit") ].
Proof. reflexivity. Qed.

Lemma test_age_boundary :
  map (fun a => validate_field age (VInt a)) [18; 30; 99; 0; 17; -1]
  = [ Valid (VInt 18); Valid (VInt 30); Valid (VInt 99);
      Invalid greater_than_equal; Invalid greater_than_equal;
      Invalid greater_than_equal ].
Proof. reflexivity. Qed.

Lemma test_admin_role :
  map (fun r => validate_field role (VStr (str r)))
      ["admin"; "superadmin"; "administrator"; "root"; ""; "user"]%string
  = [ Valid (VStr (str "admin")); Valid (VStr (str "superadmin"));
      Invalid literal_error; Invalid literal_error; Invalid literal_error;
      Invalid literal_error ].
Proof. reflexivity. Qed.

Lemma test_admin_permissions :
  map (fun x => fst (has_permission (str x) admin_record))
      ["read"; "write"; "delete"; "view_reports"; "manage_users";
       "manage_roles"; "system_shutdown"]%string
  = [ inl true; inl true; inl true; inl true; inl true; inl false;
      inl false ].
Proof. reflexivity. Qed.

(** C1, as stated, fails on a password with surrounding white space.
    "   ab1!   " has 10 characters, a digit and a special character, and is
    refused as too short; " Abcdef1! " is accepted but stored without its
    two spaces. *)
Lemma padded_password_is_not_stored_unchanged :
  (8 <= Z.of_nat (List.length (str "   ab1!   "))
   /\ has_digit (str "   ab1!   ") = true
   /\ has_special (str "   ab1!   ") = true
   /\ init User (with_arg admin_kwargs password (VStr (str "   ab1!   ")))
      = inr (ValidationError [(password, string_too_short)]))
  /\ (8 <= Z.of_nat (List.length (str " Abcdef1! "))
      /\ has_digit (str " Abcdef1! ") = true
      /\ has_special (str " Abcdef1! ") = true
      /\ exists self,
           init User (with_arg admin_kwargs password (VStr (str " Abcdef1! ")))
           = inl self
           /\ dict self password = Some (VStr (str "Abcdef1!"))
           /\ dict self password <> Some (VStr (str " Abcdef1! "))).
Proof.
  split; (split; [vm_compute; discriminate|]); (split; [reflexivity|]);
    (split; [reflexivity|]); [reflexivity|].
  eexists. split; [reflexivity|]. split; [reflexivity|].
  vm_compute. discriminate.
Qed.

(** C2, as stated, fails in two ways.  "   abc!   " has 10 characters and
    no digit, yet the only error reported is [string_too_short]: the rules
    are those of the trimmed password and only the first broken one is
    named.  "abcdefg²!" has no decimal digit, yet it is accepted and
    stored: the digit rule is [str.isdigit], for which U+00B2 is a digit. *)
Lemma invalid_password_claim_fails :
  (8 <= Z.of_nat (List.length (str "   abc!   "))
   /\ has_digit (str "   abc!   ") = false
   /\ init User (with_arg admin_kwargs password (VStr (str "   abc!   ")))
      = inr (ValidationError [(password, string_too_short)]))
  /\ (has_decimal_digit (str "abcdefg" ++ [0xB2] ++ str "!") = false
      /\ exists self,
           init User
             (with_arg admin_kwargs password
                (VStr (str "abcdefg" ++ [0xB2] ++ str "!"))) = inl self
           /\ dict self password
              = Some (VStr (str "abcdefg" ++ [0xB2] ++ str "!"))).
Proof.
  split.
  - split; [vm_compute; discriminate|]. split; reflexivity.
  - split; [reflexivity|]. eexists. split; reflexivity.
Qed.


(** C6, as stated, fails on the string "25": it is not an integer, and the
    construction succeeds and stores the integer 25. *)
Lemma numeric_string_is_accepted_as_age :
  is_int (VStr (str "25")) = false
  /\ exists self,
       init User (with_arg admin_kwargs age (VStr (str "25"))) = inl self
       /\ dict self age = Some (VInt 25).
Proof.
  split; [reflexivity|]. eexists. split; reflexivity.
Qed.

(** C8, as stated, fails on U+0149: it normalises to U+02BC U+004E, which
    normalises to U+02BC U+006E. *)
Lemma normalize_name_is_not_idempotent :
  normalize_name (VStr [0x149]) = inl [0x2BC; 0x4E]
  /\ normalize_name (VStr [0x2BC; 0x4E]) = inl [0x2BC; 0x6E]
  /\ normalize_name (VStr [0x2BC; 0x4E]) <> normalize_name (VStr [0x149]).
Proof.
  split; [reflexivity|]. split; [reflexivity|]. vm_compute. discriminate.
Qed.

(** The theorems at work on the arguments of the test-suite. *)

Ltac all_fields_valid :=
  intros g _ _; destruct g; eexists; vm_compute; reflexivity.

(** The password "Abcdef1!" of the test-suite is accepted and stored as it
    is. *)
Lemma password_accepted_witness :
  exists self,
    init User admin_kwargs = inl self
    /\ dict self password = Some (VStr (trim (str "Abcdef1!")))
    /\ (trimmed is_white_space (str "Abcdef1!") ->
        dict self password = Some (VStr (str "Abcdef1!"))).
Proof.
  apply (password_accepted_and_stored_trimmed User admin_kwargs
           (str "Abcdef1!")).
  - discriminate.
  - reflexivity.
  - vm_compute. discriminate.
  - reflexivity.
  - reflexivity.
  - all_fields_valid.
Defined.

(** The password "!!!!@@@@", without a digit, is refused. *)
Lemma invalid_password_witness :
  exists e,
    init User (with_arg admin_kwargs password (VStr (str "!!!!@@@@")))
    = inr e.
Proof.
  apply (invalid_password_rejected User
           (with_arg admin_kwargs password (VStr (str "!!!!@@@@")))
           (str "!!!!@@@@")).
  - discriminate.
  - reflexivity.
  - right. left. reflexivity.
Defined.


(** An administrator may read, and asking changes nothing. *)
Lemma has_permission_witness :
  exists b,
    has_permission (str "read") admin_record = (inl b, admin_record)
    /\ (b = true <->
        str "read" = str "read" \/ str "read" = str "write"
        \/ str "read" = str "delete" \/ str "read" = str "view_reports"
        \/ str "read" = str "manage_users").
Proof.
  apply (has_permission_total_and_pure admin_record (str "read")).
  reflexivity.
Defined.

(** The role "administrator" is refused. *)
Lemma admin_role_witness :
  exists e,
    init AdminUser (with_arg admin_kwargs role (VStr (str "administrator")))
    = inr e.
Proof.
  apply (admin_role_closed_enumeration
           (with_arg admin_kwargs role (VStr (str "administrator")))
         ) with (v := VStr (str "administrator")).
  - reflexivity.
  - discriminate.
  - discriminate.
Defined.

(** The age 33 is accepted and stored. *)
Lemma age_witness :
  exists self,
    init User admin_kwargs = inl self /\ dict self age = Some (VInt 33).
Proof.
  apply (age_at_least_18_after_lax_conversion User admin_kwargs (VInt 33)).
  - simpl. tauto.
  - reflexivity.
  - reflexivity.
  - lia.
  - all_fields_valid.
Defined.

(** Assigning the age 17 to the administrator of the test-suite fails and
    leaves the record as it was. *)
Lemma atomic_assignment_witness :
  setattr age (VInt 17) admin_record
  = (inr (ValidationError [(age, greater_than_equal)]), admin_record).
Proof.
  apply (failed_assignment_is_atomic admin_record age (VInt 17)).
  simpl. tauto.
Defined.

(** "ВаСЯ": normalising "Вася" again is the question whether the title-case
    form of U+0432 is stable. *)
Lemma idempotence_witness :
  normalize_name (VStr Vasya) = inl Vasya
  <-> capitalize (lower (totitle_full 0x432)) = totitle_full 0x432.
Proof.
  apply (normalize_twice_iff_title_form_stable VaSYa Vasya 0x432
           [0x430; 0x441; 0x44F]).
  - reflexivity.
  - reflexivity.
Defined.

(** The administrator of the test-suite satisfies the invariant. *)
Lemma invariant_witness : valid_instance admin_record.
Proof.
  apply (reachable_records_are_valid admin_record).
  apply (reach_init AdminUser admin_kwargs). reflexivity.
Defined.

End Concrete.

(** * Further properties of the models *)

(** ** Padding with white space *)

Lemma dropwhile_app p a b :
  dropwhile p (a ++ b)
  = match dropwhile p a with
    | [] => dropwhile p b
    | t => t ++ b
    end.
Proof.
  induction a as [|c r IH]; simpl.
  - now destruct (dropwhile p b).
  - destruct (p c); [exact IH|reflexivity].
Qed.

Lemma dropwhile_all p a :
  Forall (fun c => p c = true) a -> dropwhile p a = [].
Proof.
  induction 1 as [|c r Hc _ IH]; simpl; [reflexivity|]. now rewrite Hc.
Qed.

Lemma strip_with_pad p pre s post :
  Forall (fun c => p c = true) pre -> Forall (fun c => p c = true) post ->
  strip_with p (pre ++ s ++ post) = strip_with p s.
Proof.
  intros Hpre Hpost. unfold strip_with.
  rewrite (dropwhile_app p pre), (dropwhile_all p pre Hpre).
  rewrite (dropwhile_app p s).
  destruct (dropwhile p s) as [|c t].
  - now rewrite (dropwhile_all p post Hpost).
  - rewrite rev_app_distr, dropwhile_app.
    rewrite (dropwhile_all p (rev post)); [reflexivity|].
    apply Forall_forall. intros x Hx. apply in_rev in Hx.
    rewrite Forall_forall in Hpost. now apply Hpost.
Qed.

Lemma strip_with_idem p s : strip_with p (strip_with p s) = strip_with p s.
Proof. apply strip_trimmed, strip_with_trimmed. Qed.

Lemma update_id d f v g : d f = Some v -> update d f v g = d g.
Proof.
  intro H. unfold update. destruct (field_eqb g f) eqn:E; [|reflexivity].
  apply field_eqb_eq in E. now subst.
Qed.

Section MoreFields.
Context {U : UnicodeData} {V : Validators}.

(** X1.  The length test of [validate_password_strength] can never fire:
    [Field(min_length=8)] runs first, on the same trimmed string.  Whatever
    the password argument, its validation never reports "Password must be
    at least 8 characters"; a short password is reported as
    [string_too_short]. *)
Theorem validator_length_message_never_surfaces (v : pyval) (e : error_type) :
  validate_field password v = Invalid e ->
  e <> value_error "Password must be at least 8 characters"
  /\ (forall p, v = VStr p -> Z.of_nat (List.length (trim p)) < 8 ->
        e = string_too_short).
Proof.
  intro H. destruct v as [p| | |]; try (simpl in H; inversion H; split;
    [discriminate|intros ? [=]]).
  rewrite validate_password in H. cbn zeta in H.
  destruct (Z.ltb_spec (Z.of_nat (List.length (trim p))) 8) as [Hl|Hl].
  - inversion H. split; [discriminate|reflexivity].
  - split.
    + destruct (negb (has_digit (trim p))); [inversion H; discriminate|].
      destruct (negb (has_special (trim p))); inversion H; discriminate.
    + intros q [= <-] Hq. lia.
Qed.

(** X2.  White space around the argument of a string field is ignored:
    for [email], [first_name], [last_name] and [password], validating a
    string padded on either side with white-space characters gives exactly
    the result of validating the string itself. *)
Theorem surrounding_white_space_is_ignored
    (f : field) (pre s post : pystr) :
  f <> age -> f <> role ->
  Forall (fun c => is_white_space c = true) pre ->
  Forall (fun c => is_white_space c = true) post ->
  validate_field f (VStr (pre ++ s ++ post)) = validate_field f (VStr s).
Proof.
  intros Ha Hr Hpre Hpost.
  assert (Et : trim (pre ++ s ++ post) = trim s)
    by now apply strip_with_pad.
  assert (Es : strip (pre ++ s ++ post) = strip s).
  { apply strip_with_pad; eapply Forall_impl; try eassumption;
      apply white_space_is_py_space. }
  destruct f; try congruence.
  - simpl. unfold email_schema. simpl. now rewrite Et.
  - simpl. now rewrite Es.
  - simpl. now rewrite Es.
  - rewrite !validate_password. cbn zeta. now rewrite Et.
Qed.

End MoreFields.

(** ** What a construction reports *)

Section MoreConstruction.
Context {U : UnicodeData} {V : Validators}.

Lemma validate_fields_inr kw fs : forall d errors e,
  validate_fields fs kw d errors = inr e ->
  e = TypeError "Name must be a string"
  \/ (e = ValidationError (rev errors ++ line_errors kw fs)
      /\ rev errors ++ line_errors kw fs <> []).
Proof.
  induction fs as [|f fs IH]; intros d errors e H.
  - unfold line_errors. cbn [flat_map validate_fields] in *.
    rewrite app_nil_r. destruct errors as [|x errors]; [discriminate|].
    inversion H. right. split; [reflexivity|].
    simpl. intro E. apply app_eq_nil in E. destruct E; discriminate.
  - rewrite validate_fields_step in H. unfold line_errors in *.
    cbn [flat_map].
    destruct (field_result kw f) as [v|x|m] eqn:E.
    + apply IH in H. exact H.
    + apply IH in H. simpl in H. rewrite <- app_assoc in H. exact H.
    + left. inversion H. unfold field_result in E.
      destruct (kw f); [|discriminate].
      apply validate_field_raises in E. now destruct E as (_ & _ & ->).
Qed.

Lemma in_line_errors kw fs f e :
  In (f, e) (line_errors kw fs)
  <-> In f fs /\ field_result kw f = Invalid e.
Proof.
  unfold line_errors. rewrite in_flat_map. split.
  - intros (g & Hg & Hin).
    destruct (field_result kw g) as [v|x|msg] eqn:E; simpl in Hin;
      [contradiction| |contradiction].
    destruct Hin as [Hin|[]]. inversion Hin; subst. auto.
  - intros [Hf He]. exists f. split; [exact Hf|]. rewrite He. now left.
Qed.

(** X3.  A construction fails in one of two ways only.  Either a name
    argument is not a string and the [TypeError] "Name must be a string"
    comes out, or a [ValidationError] comes out that lists, in the order in
    which the fields are declared, one error for every field whose argument
    is missing or invalid, and nothing else. *)
Theorem construction_reports_every_invalid_field
    (m : model) (kw : kwargs) (e : exn) :
  init m kw = inr e ->
  e = TypeError "Name must be a string"
  \/ (e = ValidationError (line_errors kw (model_fields m))
      /\ line_errors kw (model_fields m) <> []
      /\ forall f err,
           In (f, err) (line_errors kw (model_fields m))
           <-> In f (model_fields m) /\ field_result kw f = Invalid err).
Proof.
  unfold init.
  destruct (validate_fields (model_fields m) kw empty_dict []) as [d|x] eqn:E;
    [discriminate|].
  intro H. inversion H; subst x. apply validate_fields_inr in E.
  destruct E as [E|[E1 E2]]; [now left|right]. simpl in *.
  split; [exact E1|]. split; [exact E2|]. intros f err. apply in_line_errors.
Qed.

(** X4.  Every declared field is required: leaving out the argument of a
    field of the model makes the construction fail, and, when the name
    arguments given are strings, the [ValidationError] lists [missing] for
    that field. *)
Theorem every_field_is_required (m : model) (kw : kwargs) (f : field) :
  In f (model_fields m) -> kw f = None ->
  (exists e, init m kw = inr e)
  /\ (names_are_strings kw ->
      exists es, init m kw = inr (ValidationError es)
                 /\ In (f, missing) es).
Proof.
  intros Hf Hk.
  assert (E : field_result kw f = Invalid missing)
    by (unfold field_result; now rewrite Hk).
  split.
  - apply (init_invalid m kw f Hf). intros [v Hv]. congruence.
  - intro Hs. now apply init_line_error.
Qed.

Lemma validate_fields_ext kw kw' fs : forall d errors,
  (forall f, In f fs -> kw f = kw' f) ->
  validate_fields fs kw d errors = validate_fields fs kw' d errors.
Proof.
  induction fs as [|f fs IH]; intros d errors H; [reflexivity|].
  simpl. rewrite <- (H f (or_introl eq_refl)).
  assert (H' : forall g, In g fs -> kw g = kw' g)
    by (intros g Hg; apply H; now right).
  destruct (kw f) as [v|]; [|now apply IH].
  destruct (validate_field f v); [now apply IH|now apply IH|reflexivity].
Qed.

(** X5.  Keyword arguments that name no field of the model have no effect:
    two calls that agree on the arguments of the model's fields return the
    same record or raise the same exception. *)
Theorem arguments_outside_the_model_are_ignored
    (m : model) (kw kw' : kwargs) :
  (forall f, In f (model_fields m) -> kw f = kw' f) ->
  init m kw = init m kw'.
Proof.
  intro H. unfold init.
  now rewrite (validate_fields_ext kw kw' (model_fields m) empty_dict [] H).
Qed.

(** X6.  The rules of a base class still apply to its subclasses: when a
    model is constructed from some arguments, every model whose fields are
    among its fields ([BaseUser] for [User], [User] for [AdminUser]) is
    constructed from the same arguments too, and stores the same values in
    the fields they share. *)
Theorem subclass_arguments_construct_the_base
    (m base : model) (kw : kwargs) (self : instance) :
  incl (model_fields base) (model_fields m) ->
  init m kw = inl self ->
  exists b,
    init base kw = inl b
    /\ cls b = base
    /\ forall f, In f (model_fields base) -> dict b f = dict self f.
Proof.
  intros Hincl E. destruct (init_inl _ _ _ E) as [_ H].
  destruct (init_valid base kw) as [b Eb].
  { intros f Hf. destruct (proj1 (H f) (Hincl f Hf)) as (v & Hv & _).
    now exists v. }
  exists b. split; [exact Eb|].
  destruct (init_inl _ _ _ Eb) as [Hc Hb]. split; [exact Hc|].
  intros f Hf.
  destruct (proj1 (H f) (Hincl f Hf)) as (v & Hv & ->).
  destruct (proj1 (Hb f) Hf) as (w & Hw & ->). congruence.
Qed.

End MoreConstruction.

(** ** Assignment after construction *)

Section MoreAssignment.
Context {U : UnicodeData} {V : Validators}.

(** Every value stored in a reachable record came out of the validation of
    its field. *)
Lemma reachable_provenance self :
  reachable self ->
  forall f, In f (model_fields (cls self)) ->
  exists v v', validate_field f v = Valid v' /\ dict self f = Some v'.
Proof.
  induction 1 as [m kw self E | self f v r self' Hr IH E].
  - destruct (init_inl _ _ _ E) as [Hc H]. intros f Hf. rewrite Hc in Hf.
    destruct (proj1 (H f) Hf) as (v' & Hv & Hd).
    unfold field_result in Hv. destruct (kw f) as [v|]; [|discriminate].
    eauto.
  - destruct r as [[]|e].
    + apply setattr_success in E. destruct E as (v' & Hv & Hf & ->).
      intros g Hg. simpl in *.
      destruct (field_eqb g f) eqn:Eg.
      * apply field_eqb_eq in Eg. subst g. rewrite update_same. eauto.
      * rewrite update_other; [now apply IH|].
        intro; subst. rewrite (proj2 (field_eqb_eq f f) eq_refl) in Eg.
        discriminate.
    + apply setattr_failure_unchanged in E. now subst.
Qed.

(** X7.  Construction and assignment validate alike: assigning to a field
    of a freshly constructed record the argument it was constructed with
    succeeds and leaves the class and every stored value as they were. *)
Theorem reassigning_the_constructor_argument_changes_nothing
    (m : model) (kw : kwargs) (self : instance) (f : field) (v : pyval) :
  init m kw = inl self -> In f (model_fields m) -> kw f = Some v ->
  exists self',
    setattr f v self = (inl tt, self')
    /\ cls self' = cls self
    /\ forall g, dict self' g = dict self g.
Proof.
  intros E Hf Hk. destruct (init_inl _ _ _ E) as [Hc H].
  destruct (proj1 (H f) Hf) as (v' & Hv & Hd).
  unfold field_result in Hv. rewrite Hk in Hv.
  assert (Hh : has_field (cls self) f = true)
    by (apply has_field_In; now rewrite Hc).
  rewrite (setattr_field _ _ _ Hh), Hv. eexists. split; [reflexivity|].
  split; [reflexivity|]. intro g. simpl. now apply update_id.
Qed.

Lemma revalidate_stored f v v' :
  f = password \/ f = age \/ f = role ->
  validate_field f v = Valid v' -> validate_field f v' = Valid v'.
Proof.
  intros [-> | [-> | ->]] H.
  - apply validate_password_valid in H.
    destruct H as (p & -> & -> & Hl & Hd & Hs).
    apply validate_password_valid. exists (trim p).
    assert (Et : trim (trim p) = trim p) by apply strip_with_idem.
    rewrite Et. auto.
  - apply validate_age_valid in H. destruct H as (n & _ & Hge & ->).
    rewrite validate_age_int.
    destruct (Z.ltb_spec n 18); [lia|reflexivity].
  - apply validate_role_valid in H. destruct H as [Hv ->].
    apply validate_role_valid. auto.
Qed.

(** X8.  The stored password, age and role pass their own validation
    unchanged: on a record obtained by construction and assignments,
    assigning to one of these fields the value it already holds succeeds
    and leaves every stored value as it was. *)
Theorem stored_password_age_role_revalidate
    (self : instance) (f : field) (v : pyval) :
  reachable self ->
  In f (model_fields (cls self)) ->
  f = password \/ f = age \/ f = role ->
  dict self f = Some v ->
  validate_field f v = Valid v
  /\ exists self',
       setattr f v self = (inl tt, self')
       /\ cls self' = cls self
       /\ forall g, dict self' g = dict self g.
Proof.
  intros Hr Hf Hk Hd.
  destruct (reachable_provenance self Hr f Hf) as (w & w' & Hw & Hd').
  assert (w' = v) by congruence. subst w'.
  pose proof (revalidate_stored f w v Hk Hw) as Hv.
  split; [exact Hv|].
  assert (Hh : has_field (cls self) f = true) by now apply has_field_In.
  rewrite (setattr_field _ _ _ Hh), Hv. eexists. split; [reflexivity|].
  split; [reflexivity|]. intro g. simpl. now apply update_id.
Qed.

(** X9.  The role is an ordinary field and can be reassigned: assigning
    "superadmin" to the role of an [AdminUser] always succeeds, and from
    then on [has_permission] answers [true] for every string. *)
Theorem assigning_superadmin_grants_everything (self : instance) :
  cls self = AdminUser ->
  exists self',
    setattr role (VStr (str "superadmin")) self = (inl tt, self')
    /\ dict self' role = Some (VStr (str "superadmin"))
    /\ forall x, has_permission x self' = (inl true, self').
Proof.
  intro Hc.
  assert (Hh : has_field (cls self) role = true) by now rewrite Hc.
  rewrite (setattr_field _ _ _ Hh).
  assert (Hv : validate_field role (VStr (str "superadmin"))
               = Valid (VStr (str "superadmin")))
    by (apply validate_role_valid; auto).
  rewrite Hv. eexists. split; [reflexivity|]. split; [reflexivity|].
  intro x. reflexivity.
Qed.

(** X10.  The answer of [has_permission] depends on the role alone: an
    assignment to any other field, whether it succeeds or fails, leaves
    every answer as it was. *)
Theorem permissions_survive_other_assignments
    (self self' : instance) (f : field) (v : pyval) (r : unit + exn)
    (x : pystr) :
  f <> role ->
  setattr f v self = (r, self') ->
  fst (has_permission x self') = fst (has_permission x self).
Proof.
  intros Hf E.
  assert (Hd : dict self' role = dict self role).
  { destruct r as [[]|e].
    - apply setattr_success in E. destruct E as (v' & _ & _ & ->).
      simpl. apply update_other. congruence.
    - apply setattr_failure_unchanged in E. now subst. }
  unfold has_permission, mbind, getattr, ret. rewrite Hd.
  destruct (dict self role) as [w|]; [|reflexivity].
  destruct (pyval_eqb w _); reflexivity.
Qed.

End MoreAssignment.

(** ** Names and stored strings *)

Section MoreNames.
Context {U : UnicodeData} {L : CaseLaws U} {V : Validators}.

(** X11.  Stored strings carry no surrounding white space: on a record
    obtained by construction and assignments, each name is not empty and
    is left alone both by [str.strip()] and by pydantic's trimming, and the
    password is left alone by pydantic's trimming. *)
Theorem stored_strings_have_clean_ends (self : instance) :
  reachable self ->
  (forall f, is_name f ->
     exists n, dict self f = Some (VStr n)
               /\ n <> [] /\ strip n = n /\ trim n = n)
  /\ (In password (model_fields (cls self)) ->
      exists p, dict self password = Some (VStr p) /\ trim p = p).
Proof.
  intro Hr. split.
  - intros f Hn.
    destruct (reachable_provenance self Hr f (name_in_model _ f Hn))
      as (v & v' & Hv & Hd).
    rewrite (validate_name f v Hn) in Hv.
    destruct (normalize_name v) as [n|[m|m]] eqn:E; inversion Hv; subst.
    exists n. destruct (normalize_name_strip _ _ E) as [Hs Hne].
    pose proof (normalize_name_trim _ _ E). auto.
  - intro Hf.
    destruct (reachable_provenance self Hr password Hf) as (v & v' & Hv & Hd).
    apply validate_password_valid in Hv. destruct Hv as (p & -> & -> & _).
    exists (trim p). split; [exact Hd|apply strip_with_idem].
Qed.

(** X12.  The letter case of the input does not matter to
    [normalize_name]: lower-casing the stripped input beforehand changes
    neither whether it is accepted nor the name that comes out. *)
Theorem normalize_name_ignores_input_case {S : CaseStable U} (s : pystr) :
  normalize_name (VStr (lower (strip s))) = normalize_name (VStr s).
Proof.
  unfold normalize_name. cbv zeta.
  destruct (strip s) as [|c r] eqn:E; [reflexivity|].
  assert (Hc : clean (lower (c :: r))).
  { apply lower_clean. rewrite <- E. apply strip_clean. rewrite E.
    discriminate. }
  destruct (clean_trimmed _ Hc) as [Hne Ht].
  unfold strip. rewrite (strip_trimmed _ _ Ht).
  assert (Hl : lower (lower (c :: r)) = lower (c :: r))
    by (unfold lower at 1; apply lower_from_fixed, lower_from_lowered).
  rewrite Hl. destruct (lower (c :: r)); [congruence|reflexivity].
Qed.

End MoreNames.

(** ** The further properties on the arguments of the test-suite *)

Section MoreConcrete.
#[local] Existing Instance unicode_fragment.
#[local] Existing Instance sample_validators.
#[local] Existing Instance fragment_case_laws.
#[local] Existing Instance fragment_case_stable.

(** "NoDigit!" is reported with the message on digits, not on length. *)
Lemma length_message_witness :
  value_error "Password must contain at least one digit"
  <> value_error "Password must be at least 8 characters".
Proof.
  apply (validator_length_message_never_surfaces
           (VStr (str "NoDigit!"))
           (value_error "Password must contain at least one digit")).
  reflexivity.
Defined.

(** "  Abcdef1! " validates as "Abcdef1!". *)
Lemma white_space_witness :
  validate_field password (VStr (str "  " ++ str "Abcdef1!" ++ str " "))
  = validate_field password (VStr (str "Abcdef1!")).
Proof.
  apply (surrounding_white_space_is_ignored password
           (str "  ") (str "Abcdef1!") (str " ")).
  - discriminate.
  - discriminate.
  - repeat constructor.
  - repeat constructor.
Defined.

(** A password without digit and the age 17 are reported together. *)
Lemma reported_fields_witness :
  ValidationError
    [(password, value_error "Password must contain at least one digit");
     (age, greater_than_equal)]
  = TypeError "Name must be a string"
  \/ (ValidationError
        [(password, value_error "Password must contain at least one digit");
         (age, greater_than_equal)]
      = ValidationError
          (line_errors
             (with_arg (with_arg admin_kwargs password
                          (VStr (str "!!!!@@@@"))) age (VInt 17))
             (model_fields User))
      /\ line_errors
           (with_arg (with_arg admin_kwargs password (VStr (str "!!!!@@@@")))
              age (VInt 17))
           (model_fields User) <> []
      /\ forall f err,
           In (f, err)
             (line_errors
                (with_arg (with_arg admin_kwargs password
                             (VStr (str "!!!!@@@@"))) age (VInt 17))
                (model_fields User))
           <-> In f (model_fields User)
               /\ field_result
                    (with_arg (with_arg admin_kwargs password
                                 (VStr (str "!!!!@@@@"))) age (VInt 17)) f
                  = Invalid err).
Proof.
  apply (construction_reports_every_invalid_field User
           (with_arg (with_arg admin_kwargs password (VStr (str "!!!!@@@@")))
              age (VInt 17))).
  reflexivity.
Defined.

(** A [User] without age is not constructed. *)
Lemma required_field_witness :
  exists e,
    init User (fun g => if field_eqb g age then None else admin_kwargs g)
    = inr e.
Proof.
  apply (every_field_is_required User
           (fun g => if field_eqb g age then None else admin_kwargs g) age).
  - simpl. tauto.
  - reflexivity.
Defined.

(** A role handed to [BaseUser] is ignored. *)
Lemma ignored_argument_witness :
  init BaseUser admin_kwargs
  = init BaseUser (with_arg admin_kwargs role (VInt 0)).
Proof.
  apply (arguments_outside_the_model_are_ignored BaseUser admin_kwargs
           (with_arg admin_kwargs role (VInt 0))).
  intros f [<-|[<-|[<-|[]]]]; reflexivity.
Defined.

(** The arguments of the administrator construct a [User]. *)
Lemma base_class_witness :
  exists b,
    init User admin_kwargs = inl b
    /\ cls b = User
    /\ forall f, In f (model_fields User) -> dict b f = dict admin_record f.
Proof.
  apply (subclass_arguments_construct_the_base AdminUser User admin_kwargs
           admin_record).
  - intros f Hf. simpl in *. tauto.
  - reflexivity.
Defined.

(** Assigning the administrator the password it was built with. *)
Lemma reassignment_witness :
  exists self',
    setattr password (VStr (str "Abcdef1!")) admin_record = (inl tt, self')
    /\ cls self' = cls admin_record
    /\ forall g, dict self' g = dict admin_record g.
Proof.
  apply (reassigning_the_constructor_argument_changes_nothing AdminUser
           admin_kwargs admin_record password (VStr (str "Abcdef1!"))).
  - reflexivity.
  - simpl. tauto.
  - reflexivity.
Defined.

(** Assigning the administrator its own age. *)
Lemma revalidation_witness :
  validate_field age (VInt 33) = Valid (VInt 33)
  /\ exists self',
       setattr age (VInt 33) admin_record = (inl tt, self')
       /\ cls self' = cls admin_record
       /\ forall g, dict self' g = dict admin_record g.
Proof.
  apply (stored_password_age_role_revalidate admin_record age (VInt 33)).
  - apply (reach_init AdminUser admin_kwargs). reflexivity.
  - simpl. tauto.
  - right. left. reflexivity.
  - reflexivity.
Defined.

(** The administrator of the test-suite promoted by assignment. *)
Lemma promotion_witness :
  exists self',
    setattr role (VStr (str "superadmin")) admin_record = (inl tt, self')
    /\ dict self' role = Some (VStr (str "superadmin"))
    /\ forall x, has_permission x self' = (inl true, self').
Proof.
  apply (assigning_superadmin_grants_everything admin_record).
  reflexivity.
Defined.

(** Changing the age leaves the permission to read. *)
Lemma permission_frame_witness :
  fst (has_permission (str "read")
         (snd (setattr age (VInt 40) admin_record)))
  = fst (has_permission (str "read") admin_record).
Proof.
  apply (permissions_survive_other_assignments admin_record
           (snd (setattr age (VInt 40) admin_record)) age (VInt 40)
           (fst (setattr age (VInt 40) admin_record)) (str "read")).
  - discriminate.
  - reflexivity.
Defined.

(** The strings stored in the administrator of the test-suite. *)
Lemma clean_ends_witness :
  (forall f, is_name f ->
     exists n, dict admin_record f = Some (VStr n)
               /\ n <> [] /\ strip n = n /\ trim n = n)
  /\ (In password (model_fields (cls admin_record)) ->
      exists p, dict admin_record password = Some (VStr p) /\ trim p = p).
Proof.
  apply (stored_strings_have_clean_ends admin_record).
  apply (reach_init AdminUser admin_kwargs). reflexivity.
Defined.

(** "ВаСЯ" and its lower-case form normalise alike. *)
Lemma input_case_witness :
  normalize_name (VStr (lower (strip VaSYa))) = normalize_name (VStr VaSYa).
Proof.
  exact (normalize_name_ignores_input_case VaSYa).
Defined.

End MoreConcrete.
